(** * A contact book: phones, birthdays and the upcoming-birthdays query

    Shallow embedding of [phonebook.py].  Python [str] values are Rocq
    strings whose characters are read as the code points U+0000..U+00FF, so
    every statement below ranges over the strings made of those code points;
    [str.isdigit] and the regular-expression class [\d] are given by their
    exact tables on that range.  Exceptions are an explicit [result] type, the
    mutable [AddressBook] is threaded through the command handlers, and the
    [datetime] arithmetic follows the reference implementation of Python's
    [datetime] module. *)

From Stdlib Require Import String Ascii List ZArith Lia Bool.
Import ListNotations.

Open Scope string_scope.
Open Scope Z_scope.

(* ------------------------------------------------------------------ *)
(** ** Exceptions *)

Inductive exn : Type :=
| ValueError
| KeyError
| IndexError
| OverflowError.

Inductive result (A : Type) : Type :=
| Ok (a : A)
| Raise (e : exn).

Arguments Ok {A} a.
Arguments Raise {A} e.

Definition bind {A B : Type} (r : result A) (k : A -> result B) : result B :=
  match r with
  | Ok a => k a
  | Raise e => Raise e
  end.

Notation "x <- r ;; k" := (bind r (fun x => k))
  (at level 61, r at next level, right associativity).

(* ------------------------------------------------------------------ *)
(** ** Strings *)

(** Code point of a character. *)
Definition ord (c : ascii) : Z := Z.of_N (N_of_ascii c).

Definition chr (n : Z) : ascii := ascii_of_N (Z.to_N n).

(** [len(s)] *)
Definition len (s : string) : Z := Z.of_nat (String.length s).

(** The ten characters '0'..'9': the decimal digits of the range. *)
Definition is_decimal (c : ascii) : bool := (48 <=? ord c) && (ord c <=? 57).

(** Characters [c] with [c.isdigit()]: the decimal digits and the
    superscript digits U+00B2, U+00B3 and U+00B9. *)
Definition chr_isdigit (c : ascii) : bool :=
  is_decimal c || (ord c =? 178) || (ord c =? 179) || (ord c =? 185).

Fixpoint all_chars (f : ascii -> bool) (s : string) : bool :=
  match s with
  | EmptyString => true
  | String c s' => f c && all_chars f s'
  end.

(** [s.isdigit()]: at least one character, and all of them digits. *)
Definition isdigit (s : string) : bool :=
  match s with
  | EmptyString => false
  | String _ _ => all_chars chr_isdigit s
  end.

(** Decimal rendering of a digit and zero-padded fields ([%02d], [%04d]). *)
Definition digit_char (d : Z) : ascii := chr (48 + d).

Definition pad2 (n : Z) : string :=
  String (digit_char (n / 10 mod 10)) (String (digit_char (n mod 10)) "").

Definition pad4 (n : Z) : string :=
  String (digit_char (n / 1000 mod 10))
    (String (digit_char (n / 100 mod 10)) (pad2 n)).

(** [int(s)] on the texts the date pattern captures: leading blanks are
    skipped, then the decimal digits are read; anything else is a
    [ValueError]. *)
Fixpoint read_digits (acc : Z) (s : string) : result Z :=
  match s with
  | EmptyString => Ok acc
  | String c s' =>
      if is_decimal c then read_digits (10 * acc + (ord c - 48)) s'
      else Raise ValueError
  end.

Fixpoint int (s : string) : result Z :=
  match s with
  | EmptyString => Raise ValueError
  | String c s' => if ord c =? 32 then int s' else read_digits 0 s
  end.

(* ------------------------------------------------------------------ *)
(** ** The calendar of the [datetime] module *)

Definition MINYEAR : Z := 1.
Definition MAXYEAR : Z := 9999.
Definition _MAXORDINAL : Z := 3652059.

Definition _is_leap (year : Z) : bool :=
  (year mod 4 =? 0) && (negb (year mod 100 =? 0) || (year mod 400 =? 0)).

Definition _days_before_year (year : Z) : Z :=
  let y := year - 1 in
  y * 365 + y / 4 - y / 100 + y / 400.

Definition _DAYS_IN_MONTH : list Z :=
  [-1; 31; 28; 31; 30; 31; 30; 31; 31; 30; 31; 30; 31].

Definition _DAYS_BEFORE_MONTH : list Z :=
  [-1; 0; 31; 59; 90; 120; 151; 181; 212; 243; 273; 304; 334].

Definition index (l : list Z) (i : Z) : Z := nth (Z.to_nat i) l 0.

Definition _days_in_month (year month : Z) : Z :=
  if (month =? 2) && _is_leap year then 29 else index _DAYS_IN_MONTH month.

Definition _days_before_month (year month : Z) : Z :=
  index _DAYS_BEFORE_MONTH month
  + (if (2 <? month) && _is_leap year then 1 else 0).

Definition _ymd2ord (year month day : Z) : Z :=
  _days_before_year year + _days_before_month year month + day.

Definition _DI400Y : Z := Eval cbv in _days_before_year 401.
Definition _DI100Y : Z := Eval cbv in _days_before_year 101.
Definition _DI4Y : Z := Eval cbv in _days_before_year 5.

Definition _ord2ymd (n0 : Z) : Z * Z * Z :=
  let n := n0 - 1 in
  let n400 := n / _DI400Y in
  let n := n mod _DI400Y in
  let year := n400 * 400 + 1 in
  let n100 := n / _DI100Y in
  let n := n mod _DI100Y in
  let n4 := n / _DI4Y in
  let n := n mod _DI4Y in
  let n1 := n / 365 in
  let n := n mod 365 in
  let year := year + n100 * 100 + n4 * 4 + n1 in
  if (n1 =? 4) || (n100 =? 4) then (year - 1, 12, 31)
  else
    let leapyear := (n1 =? 3) && (negb (n4 =? 24) || (n100 =? 3)) in
    let month := Z.shiftr (n + 50) 5 in
    let preceding :=
      index _DAYS_BEFORE_MONTH month
      + (if (2 <? month) && leapyear then 1 else 0) in
    if n <? preceding then
      let month := month - 1 in
      let preceding :=
        preceding
        - (index _DAYS_IN_MONTH month
           + (if (month =? 2) && leapyear then 1 else 0)) in
      (year, month, n - preceding + 1)
    else (year, month, n - preceding + 1).

(** [_check_date_fields] *)
Definition _check_date_fields (year month day : Z) : result unit :=
  if negb ((MINYEAR <=? year) && (year <=? MAXYEAR)) then Raise ValueError
  else if negb ((1 <=? month) && (month <=? 12)) then Raise ValueError
  else if negb ((1 <=? day) && (day <=? _days_in_month year month))
       then Raise ValueError
  else Ok tt.

(** A naive [datetime] object. *)
Record datetime : Type := mkDatetime {
  year : Z;
  month : Z;
  day : Z;
  hour : Z;
  minute : Z;
  second : Z;
  microsecond : Z
}.

(** [datetime(year, month, day)]: midnight of a checked calendar day. *)
Definition datetime_ymd (y m d : Z) : result datetime :=
  chk <- _check_date_fields y m d ;;
  Ok (mkDatetime y m d 0 0 0 0).

(** [dt.replace(year=y)] builds a new object from the changed fields, with
    the constructor's checks. *)
Definition replace_year (dt : datetime) (y : Z) : result datetime :=
  chk <- _check_date_fields y (month dt) (day dt) ;;
  Ok (mkDatetime y (month dt) (day dt)
        (hour dt) (minute dt) (second dt) (microsecond dt)).

Definition toordinal (dt : datetime) : Z :=
  _ymd2ord (year dt) (month dt) (day dt).

(** A normalised [timedelta]: [0 <= seconds < 86400],
    [0 <= microseconds < 10^6]. *)
Record timedelta : Type := mkTimedelta {
  days : Z;
  seconds : Z;
  microseconds : Z
}.

(** [timedelta(days=d, seconds=s, microseconds=us)] with the constructor's
    carries. *)
Definition timedelta_new (d s us : Z) : timedelta :=
  let s := s + us / 1000000 in
  let us := us mod 1000000 in
  let d := d + s / 86400 in
  let s := s mod 86400 in
  mkTimedelta d s us.

Definition secs_of_day (dt : datetime) : Z :=
  second dt + minute dt * 60 + hour dt * 3600.

(** [datetime.__add__] *)
Definition datetime_add (dt : datetime) (other : timedelta)
  : result datetime :=
  let delta :=
    timedelta_new (toordinal dt + days other)
      (secs_of_day dt + seconds other)
      (microsecond dt + microseconds other) in
  let hour := seconds delta / 3600 in
  let rem := seconds delta mod 3600 in
  let minute := rem / 60 in
  let second := rem mod 60 in
  if (0 <? days delta) && (days delta <=? _MAXORDINAL) then
    let '(y, m, d) := _ord2ymd (days delta) in
    Ok (mkDatetime y m d hour minute second (microseconds delta))
  else Raise OverflowError.

(** [datetime.__sub__] on two datetimes. *)
Definition datetime_sub (a b : datetime) : timedelta :=
  timedelta_new (toordinal a - toordinal b)
    (secs_of_day a - secs_of_day b)
    (microsecond a - microsecond b).

(** The comparison of naive datetimes is the comparison of their field
    tuples. *)
Fixpoint tuple_cmp (xs ys : list Z) : comparison :=
  match xs, ys with
  | x :: xs', y :: ys' =>
      match x ?= y with
      | Eq => tuple_cmp xs' ys'
      | c => c
      end
  | [], [] => Eq
  | [], _ :: _ => Lt
  | _ :: _, [] => Gt
  end.

Definition fields (dt : datetime) : list Z :=
  [year dt; month dt; day dt; hour dt; minute dt; second dt; microsecond dt].

Definition datetime_cmp (a b : datetime) : comparison :=
  tuple_cmp (fields a) (fields b).

Definition datetime_le (a b : datetime) : bool :=
  match datetime_cmp a b with Gt => false | _ => true end.

Definition datetime_lt (a b : datetime) : bool :=
  match datetime_cmp a b with Lt => true | _ => false end.

(* ------------------------------------------------------------------ *)
(** ** [datetime.strptime(value, "%d.%m.%Y")]

    [_strptime] turns the format into the regular expression
    [(3[0-1]|[1-2]\d|0[1-9]|[1-9]| [1-9])\.(1[0-2]|0[1-9]|[1-9])\.(\d\d\d\d)],
    matches it at the start of the text, refuses text left over and reads the
    three groups with [int].  The matcher below is the backtracking,
    leftmost-alternative-first matcher of [re] for expressions of this shape:
    a sequence of groups, each an alternation of fixed runs of character
    classes. *)

Inductive cclass : Type :=
| CRange (lo hi : Z)   (* [lo-hi] and, with lo = hi, a literal character *)
| CDigit.              (* \d *)

Definition cclass_matches (k : cclass) (c : ascii) : bool :=
  match k with
  | CRange lo hi => (lo <=? ord c) && (ord c <=? hi)
  | CDigit => is_decimal c
  end.

(** One alternative: the matched text and the rest of the input. *)
Fixpoint match_alt (a : list cclass) (s : string) : option (string * string) :=
  match a with
  | [] => Some ("", s)
  | k :: a' =>
      match s with
      | EmptyString => None
      | String c s' =>
          if cclass_matches k c then
            match match_alt a' s' with
            | Some (t, r) => Some (String c t, r)
            | None => None
            end
          else None
      end
  end.

(** One group, followed by what the rest of the expression does ([k]): the
    first alternative after which the rest matches wins; when the rest fails
    the next alternative is tried. *)
Fixpoint first_alt (alts : list (list cclass)) (s : string)
  (k : string -> option (list string * string))
  : option (list string * string) :=
  match alts with
  | [] => None
  | a :: alts' =>
      match match_alt a s with
      | Some (t, r) =>
          match k r with
          | Some (caps, r') => Some (t :: caps, r')
          | None => first_alt alts' s k
          end
      | None => first_alt alts' s k
      end
  end.

(** A sequence of groups: the text of every group and the unmatched rest. *)
Fixpoint match_seq (groups : list (list (list cclass))) (s : string)
  : option (list string * string) :=
  match groups with
  | [] => Some ([], s)
  | g :: gs => first_alt g s (match_seq gs)
  end.

Definition lit (c : Z) : list (list cclass) := [[CRange c c]].

Definition re_d : list (list cclass) :=
  [ [CRange 51 51; CRange 48 49];      (* 3[0-1] *)
    [CRange 49 50; CDigit];            (* [1-2]\d *)
    [CRange 48 48; CRange 49 57];      (* 0[1-9] *)
    [CRange 49 57];                    (* [1-9] *)
    [CRange 32 32; CRange 49 57] ].    (* " "[1-9] *)

Definition re_m : list (list cclass) :=
  [ [CRange 49 49; CRange 48 50];      (* 1[0-2] *)
    [CRange 48 48; CRange 49 57];      (* 0[1-9] *)
    [CRange 49 57] ].                  (* [1-9] *)

Definition re_Y : list (list cclass) :=
  [ [CDigit; CDigit; CDigit; CDigit] ].

Definition re_dmY : list (list (list cclass)) :=
  [re_d; lit 46; re_m; lit 46; re_Y].

Definition strptime_dmY (data_string : string) : result datetime :=
  match match_seq re_dmY data_string with
  | None => Raise ValueError                 (* does not match format *)
  | Some (_, String _ _) => Raise ValueError (* unconverted data remains *)
  | Some ([d; _; m; _; Y], EmptyString) =>
      day <- int d ;;
      month <- int m ;;
      year <- int Y ;;
      datetime_ymd year month day
  | Some (_, EmptyString) => Raise ValueError
  end.

(** [dt.strftime("%d.%m.%Y")].  [%d] and [%m] are two digits.  [%Y] is
    written by the platform: four digits, zero-padded, in the documented
    format and in CPython from 3.13 on, while older CPython builds on glibc
    write years below 1000 without the padding. *)
Inductive year_style : Type := Padded | Unpadded.

Definition unpadded (n : Z) : string :=
  if n <? 10 then String (digit_char n) ""
  else if n <? 100 then pad2 n
  else if n <? 1000 then String (digit_char (n / 100 mod 10)) (pad2 n)
  else pad4 n.

Definition format_Y (st : year_style) (y : Z) : string :=
  match st with
  | Padded => pad4 y
  | Unpadded => unpadded y
  end.

Definition strftime_dmY (st : year_style) (dt : datetime) : string :=
  pad2 (day dt) ++ "." ++ pad2 (month dt) ++ "." ++ format_Y st (year dt).

(* ------------------------------------------------------------------ *)
(** ** Fields *)

(** A [Field] object holds one attribute, [value]. *)
Record Field (A : Type) : Type := mkField { value : A }.

Arguments mkField {A} value.
Arguments value {A} f.

Definition Name : Type := Field string.
Definition Phone : Type := Field string.
Definition Birthday : Type := Field datetime.

Definition Name_init (v : string) : Name := mkField v.

Definition Phone_init (v : string) : result Phone :=
  if negb (isdigit v) || negb (len v =? 10) then Raise ValueError
  else Ok (mkField v).

(** Every [ValueError] of [strptime] is raised again as a [ValueError]. *)
Definition Birthday_init (v : string) : result Birthday :=
  match strptime_dmY v with
  | Ok birthday_date => Ok (mkField birthday_date)
  | Raise ValueError => Raise ValueError
  | Raise e => Raise e
  end.

Definition Birthday_str (st : year_style) (self : Birthday) : string :=
  strftime_dmY st (value self).

(* ------------------------------------------------------------------ *)
(** ** Record

    A method is a function from the object's state before the call to its
    state after it, or to the exception it raises (the state is then the one
    before the call: every method below raises before it assigns). *)

Record record : Type := mkRecord {
  name : Name;
  phones : list Phone;
  birthday : option Birthday
}.

Definition Record_init (n : string) : record :=
  mkRecord (Name_init n) [] None.

Definition Record_add_phone (phone : string) (self : record)
  : result record :=
  p <- Phone_init phone ;;
  Ok (mkRecord (name self) (phones self ++ [p]) (birthday self)).

Definition Record_remove_phone (phone : string) (self : record) : record :=
  mkRecord (name self)
    (filter (fun p => negb (value p =? phone)%string) (phones self))
    (birthday self).

(** The loop of [edit_phone]: the first entry equal to [old_phone] gets the
    new value as it is, and the loop stops. *)
Fixpoint edit_phone_loop (old_phone new_phone : string) (ps : list Phone)
  : list Phone :=
  match ps with
  | [] => []
  | phone :: rest =>
      if (value phone =? old_phone)%string then mkField new_phone :: rest
      else phone :: edit_phone_loop old_phone new_phone rest
  end.

Definition Record_edit_phone (old_phone new_phone : string) (self : record)
  : record :=
  mkRecord (name self) (edit_phone_loop old_phone new_phone (phones self))
    (birthday self).

Fixpoint Record_find_phone_loop (phone : string) (ps : list Phone)
  : option string :=
  match ps with
  | [] => None
  | p :: rest =>
      if (value p =? phone)%string then Some (value p)
      else Record_find_phone_loop phone rest
  end.

Definition Record_find_phone (phone : string) (self : record)
  : option string :=
  Record_find_phone_loop phone (phones self).

Definition Record_add_birthday (date : string) (self : record)
  : result record :=
  b <- Birthday_init date ;;
  Ok (mkRecord (name self) (phones self) (Some b)).

(* ------------------------------------------------------------------ *)
(** ** AddressBook

    [UserDict.data] is a [dict]: keys are unique and kept in insertion order;
    assigning to a present key keeps its place, assigning to an absent key
    appends it. *)

Fixpoint dict_get {V : Type} (k : string) (d : list (string * V))
  : option V :=
  match d with
  | [] => None
  | (k', v) :: d' => if (k' =? k)%string then Some v else dict_get k d'
  end.

Fixpoint dict_set {V : Type} (k : string) (v : V) (d : list (string * V))
  : list (string * V) :=
  match d with
  | [] => [(k, v)]
  | (k', v') :: d' =>
      if (k' =? k)%string then (k', v) :: d' else (k', v') :: dict_set k v d'
  end.

Fixpoint dict_del {V : Type} (k : string) (d : list (string * V))
  : list (string * V) :=
  match d with
  | [] => []
  | (k', v') :: d' =>
      if (k' =? k)%string then d' else (k', v') :: dict_del k d'
  end.

Definition dict_contains {V : Type} (k : string) (d : list (string * V))
  : bool :=
  match dict_get k d with
  | Some _ => true
  | None => false
  end.

Definition dict_keys {V : Type} (d : list (string * V)) : list string :=
  map fst d.

Definition dict_values {V : Type} (d : list (string * V)) : list V :=
  map snd d.

Definition AddressBook : Type := list (string * record).

Definition AddressBook_add_record (r : record) (self : AddressBook)
  : AddressBook :=
  dict_set (value (name r)) r self.

Definition AddressBook_find (n : string) (self : AddressBook)
  : option record :=
  dict_get n self.

Definition AddressBook_delete (n : string) (self : AddressBook)
  : AddressBook :=
  if dict_contains n self then dict_del n self else self.

(* ------------------------------------------------------------------ *)
(** ** Command handlers

    What a handler prints is one of these replies; the text printed is a
    function of the reply. *)

Record row : Type := mkRow {
  row_name : string;
  row_birthday : Birthday;
  row_days_left : Z
}.

Inductive reply : Type :=
| ContactAdded          (* "Контакт доданий." *)
| ContactUpdated        (* "Контакт оновлений." *)
| ContactChanged        (* "Контакт оновлено." *)
| NameNotFound (n : string)   (* "Контакт з іменем {name} не знайдено." *)
| NoSuchContact (n : string)  (* "Контакт {name} не знайдено." *)
| BirthdayAdded         (* "День народження додано." *)
| Upcoming (lines : list row)
    (* one line "{name}: {birthday} (через {days_left} днів)" per row *)
| NoUpcoming            (* "Немає найближчих днів народження." *)
| GiveNameAndPhone      (* "Будь ласка, надайте ім'я та номер телефону." *)
| ContactNotFound       (* "Контакт не знайдений." *)
| WrongUsage            (* "Неправильне використання команди. ..." *)
| OtherError (e : exn). (* "Помилка: {e}" *)

(** The decorator: the reply of the wrapped body, or the text that stands
    for the exception it raised. *)
Definition input_error (r : result reply) : reply :=
  match r with
  | Ok m => m
  | Raise ValueError => GiveNameAndPhone
  | Raise KeyError => ContactNotFound
  | Raise IndexError => WrongUsage
  | Raise e => OtherError e
  end.

Definition nonempty (s : string) : bool :=
  match s with
  | EmptyString => false
  | String _ _ => true
  end.

(** The handlers reach a record object through the book, under the key
    [name]; a method call on it changes the object the book holds, which is
    the assignment [dict_set name] below.  The book a handler leaves behind
    is returned with the reply, also when the body raised. *)
Definition add_contact (args : list string) (contacts : AddressBook)
  : reply * AddressBook :=
  match args with
  | n :: phone :: _ =>
      let '(message, r, contacts1) :=
        match AddressBook_find n contacts with
        | None =>
            let r := Record_init n in
            (ContactAdded, r, AddressBook_add_record r contacts)
        | Some r => (ContactUpdated, r, contacts)
        end in
      if nonempty phone then
        match Record_add_phone phone r with
        | Ok r' => (input_error (Ok message), dict_set n r' contacts1)
        | Raise e => (input_error (Raise e), contacts1)
        end
      else (input_error (Ok message), contacts1)
  | _ => (input_error (Raise ValueError), contacts)
  end.

Definition change_contact (args : list string) (contacts : AddressBook)
  : reply * AddressBook :=
  match args with
  | [n; old_phone; new_phone] =>
      match AddressBook_find n contacts with
      | None => (input_error (Ok (NameNotFound n)), contacts)
      | Some r =>
          (input_error (Ok ContactChanged),
           dict_set n (Record_edit_phone old_phone new_phone r) contacts)
      end
  | _ => (input_error (Raise ValueError), contacts)
  end.

Definition add_birthday (args : list string) (contacts : AddressBook)
  : reply * AddressBook :=
  match args with
  | n :: date :: _ =>
      match AddressBook_find n contacts with
      | None => (input_error (Ok (NoSuchContact n)), contacts)
      | Some r =>
          match Record_add_birthday date r with
          | Ok r' => (input_error (Ok BirthdayAdded), dict_set n r' contacts)
          | Raise e => (input_error (Raise e), contacts)
          end
      end
  | _ => (input_error (Raise ValueError), contacts)
  end.

(** The loop of [birthdays] over [contacts.values()], with the list it
    appends to. *)
Fixpoint birthdays_loop (today next_week : datetime) (records : list record)
  (upcoming_birthdays : list row) : result (list row) :=
  match records with
  | [] => Ok upcoming_birthdays
  | r :: rest =>
      match birthday r with
      | Some b =>
          birthday_this_year <- replace_year (value b) (year today) ;;
          if datetime_le today birthday_this_year
             && datetime_le birthday_this_year next_week
          then
            let days_left := days (datetime_sub birthday_this_year today) in
            birthdays_loop today next_week rest
              (upcoming_birthdays ++ [mkRow (value (name r)) b days_left])
          else birthdays_loop today next_week rest upcoming_birthdays
      | None => birthdays_loop today next_week rest upcoming_birthdays
      end
  end.

(** [birthdays(args, contacts)], run when [datetime.today()] is [today]. *)
Definition birthdays (args : list string) (contacts : AddressBook)
  (today : datetime) : reply :=
  input_error
    (next_week <- datetime_add today (timedelta_new 7 0 0) ;;
     upcoming_birthdays <-
       birthdays_loop today next_week (dict_values contacts) [] ;;
     Ok (match upcoming_birthdays with
         | [] => NoUpcoming
         | _ :: _ => Upcoming upcoming_birthdays
         end)).

(* ------------------------------------------------------------------ *)
(** ** The commands that show data

    The text of a record, [Record.__str__], is kept as its three parts: the
    name, the phone values that are joined with "; ", and the birthday, which
    is written through [Birthday.__str__] or as the words for "not given". *)

Inductive record_text : Type :=
| RecordText (n : string) (phone_values : list string) (b : option Birthday).

Definition Record_str (self : record) : record_text :=
  RecordText (value (name self)) (map value (phones self)) (birthday self).

(** What [main] prints. *)
Inductive printed : Type :=
| Banner                                  (* the list of commands *)
| Said (r : reply)
| Shown (t : record_text)                 (* "{record}" *)
| ShownAll (lines : list (string * record_text))
    (* one line "{key} {value}" per entry *)
| BirthdayOf (n : string) (b : Birthday)  (* "День народження {name}: {birthday}" *)
| NoBirthdayFor (n : string)              (* "Немає дня народження для {name}." *)
| HowCanIHelp                             (* "Як я можу допомогти?" *)
| Goodbye                                 (* "До побачення!" *)
| InvalidCommandText.                     (* "Невірна команда." *)

Definition show_phone (args : list string) (contacts : AddressBook)
  : printed :=
  match args with
  | [n] =>
      match AddressBook_find n contacts with
      | None => Said (input_error (Ok (NameNotFound n)))
      | Some r => Shown (Record_str r)
      end
  | _ => Said (input_error (Raise ValueError))
  end.

Definition show_all (contacts : AddressBook) : printed :=
  ShownAll (map (fun kv => (fst kv, Record_str (snd kv))) contacts).

Definition show_birthday (args : list string) (contacts : AddressBook)
  : printed :=
  match args with
  | [n] =>
      match AddressBook_find n contacts with
      | None => NoBirthdayFor n
      | Some r =>
          match birthday r with
          | None => NoBirthdayFor n
          | Some b => BirthdayOf n b
          end
      end
  | _ => Said (input_error (Raise ValueError))
  end.

(* ------------------------------------------------------------------ *)
(** ** Reading a command line *)

(** Characters [c] with [c.isspace()]: U+0009..U+000D, U+001C..U+001F, the
    blank, U+0085 and U+00A0. *)
Definition isspace (c : ascii) : bool :=
  let n := ord c in
  ((9 <=? n) && (n <=? 13)) || ((28 <=? n) && (n <=? 31))
  || (n =? 32) || (n =? 133) || (n =? 160).

(** [s.split()]: the maximal runs of characters that are no whitespace.
    [word] is the run being read, if one is. *)
Fixpoint split_from (word : option string) (s : string) : list string :=
  match s with
  | EmptyString =>
      match word with
      | Some w => [w]
      | None => []
      end
  | String c s' =>
      if isspace c then
        match word with
        | Some w => w :: split_from None s'
        | None => split_from None s'
        end
      else
        match word with
        | Some w => split_from (Some (w ++ String c "")) s'
        | None => split_from (Some (String c "")) s'
        end
  end.

Definition split (s : string) : list string := split_from None s.

(** [s.strip()] *)
Fixpoint lstrip (s : string) : string :=
  match s with
  | EmptyString => EmptyString
  | String c s' => if isspace c then lstrip s' else s
  end.

Fixpoint rstrip (s : string) : string :=
  match s with
  | EmptyString => EmptyString
  | String c s' =>
      match rstrip s' with
      | EmptyString => if isspace c then EmptyString else String c ""
      | r => String c r
      end
  end.

Definition strip (s : string) : string := rstrip (lstrip s).

(** [s.lower()]: the capital letters of the range, A..Z and U+00C0..U+00DE
    without the multiplication sign U+00D7, go 32 code points up. *)
Definition lower_chr (c : ascii) : ascii :=
  let n := ord c in
  if ((65 <=? n) && (n <=? 90))
     || ((192 <=? n) && (n <=? 222) && negb (n =? 215))
  then chr (n + 32) else c.

Fixpoint lower (s : string) : string :=
  match s with
  | EmptyString => EmptyString
  | String c s' => String (lower_chr c) (lower s')
  end.

(** [parse_input] is decorated too: when the line has no word, unpacking
    raises [ValueError] and the caller gets the decorator's text in place
    of the pair. *)
Inductive parsed : Type :=
| Command (cmd : string) (args : list string)
| Message (r : reply).

Definition parse_input (user_input : string) : parsed :=
  match split user_input with
  | cmd :: args => Command (lower (strip cmd)) args
  | [] => Message (input_error (Raise ValueError))
  end.

(* ------------------------------------------------------------------ *)
(** ** The command loop

    One turn of the loop of [main] on the line [input] returned; [today] is
    what [datetime.today()] gives during that turn.  The loop goes on with
    what it printed and the book, or it ends: by [close] or [exit], after
    [save_data] was given the book, or by an exception that nothing
    catches. *)

Inductive turn : Type :=
| Continue (p : printed) (contacts : AddressBook)
| Stop (saved : AddressBook)
| Crash (e : exn).

Definition after_handler (ra : reply * AddressBook) : turn :=
  Continue (Said (fst ra)) (snd ra).

(** [command, args = parse_input(user_input)] unpacks what it gets into
    two names: the pair, or, for the text of the decorator, which has more
    than two characters, nothing: [ValueError]. *)
Definition main_turn (today : datetime) (user_input : string)
  (contacts : AddressBook) : turn :=
  match parse_input user_input with
  | Message _ => Crash ValueError
  | Command command args =>
      if (command =? "close")%string || (command =? "exit")%string
      then Stop contacts
      else if (command =? "hello")%string then Continue HowCanIHelp contacts
      else if (command =? "add")%string
      then after_handler (add_contact args contacts)
      else if (command =? "change")%string
      then after_handler (change_contact args contacts)
      else if (command =? "phone")%string
      then Continue (show_phone args contacts) contacts
      else if (command =? "all")%string
      then Continue (show_all contacts) contacts
      else if (command =? "add-birthday")%string
      then after_handler (add_birthday args contacts)
      else if (command =? "show-birthday")%string
      then Continue (show_birthday args contacts) contacts
      else if (command =? "birthdays")%string
      then Continue (Said (birthdays args contacts today)) contacts
      else Continue InvalidCommandText contacts
  end.

(** A run of [main]: [contacts] is what [load_data] returned, [inputs] are
    the lines typed so far, each with the time at which it is handled.
    After them the program waits for the next line ([Running]), has ended
    ([Exited], with the book it saved) or has died ([Crashed]). *)
Inductive status : Type :=
| Running
| Exited
| Crashed (e : exn).

Record session : Type := mkSession {
  book_of : AddressBook;
  printed_of : list printed;
  saved_of : option AddressBook;
  status_of : status
}.

Fixpoint main_loop (inputs : list (datetime * string))
  (contacts : AddressBook) (out : list printed) : session :=
  match inputs with
  | [] => mkSession contacts out None Running
  | (today, user_input) :: rest =>
      match main_turn today user_input contacts with
      | Continue p contacts' => main_loop rest contacts' (out ++ [p])
      | Stop saved => mkSession contacts (out ++ [Goodbye]) (Some saved) Exited
      | Crash e => mkSession contacts out None (Crashed e)
      end
  end.

Definition main (loaded : AddressBook) (inputs : list (datetime * string))
  : session :=
  main_loop inputs loaded [Banner].

(* ------------------------------------------------------------------ *)
(** ** The words of the specification *)

(** "Exactly 10 characters, all decimal digits". *)
Definition ten_decimal_digits (raw : string) : bool :=
  (len raw =? 10) && all_chars is_decimal raw.

(** The keys of a [dict] are pairwise different. *)
Definition unique_keys (book : AddressBook) : Prop := NoDup (dict_keys book).

(** A real calendar date: a day of a month of one of the years 1 to 9999 of
    the proleptic Gregorian calendar. *)
Definition real_date (y m d : Z) : bool :=
  (1 <=? y) && (y <=? 9999) && (1 <=? m) && (m <=? 12)
  && (1 <=? d) && (d <=? _days_in_month y m).

Definition digit_value (c : ascii) : Z := ord c - 48.

(** "The zero-padded form DD.MM.YYYY denoting a real calendar date": ten
    characters, two digits, a dot, two digits, a dot and four digits, read
    as day, month and year. *)
Definition spec_date_of (x : string) : option (Z * Z * Z) :=
  match x with
  | String d1 (String d2 (String p1 (String m1 (String m2 (String p2
      (String y1 (String y2 (String y3 (String y4 EmptyString))))))))) =>
      if forallb is_decimal [d1; d2; m1; m2; y1; y2; y3; y4]
         && (ord p1 =? 46) && (ord p2 =? 46)
      then
        let d := 10 * digit_value d1 + digit_value d2 in
        let m := 10 * digit_value m1 + digit_value m2 in
        let y := 1000 * digit_value y1 + 100 * digit_value y2
                 + 10 * digit_value y3 + digit_value y4 in
        if real_date y m d then Some (y, m, d) else None
      else None
  | _ => None
  end.

(** The ways to write a day and a month that the pattern takes: two digits,
    and below ten also the digit alone and, for the day, a blank and the
    digit. *)
Definition day_texts (d : Z) : list string :=
  pad2 d ::
  (if d <? 10
   then [String (digit_char d) ""; String " " (String (digit_char d) "")]
   else []).

Definition month_texts (m : Z) : list string :=
  pad2 m :: (if m <? 10 then [String (digit_char m) ""] else []).

Definition date_text (ds ms : string) (y : Z) : string :=
  ds ++ "." ++ ms ++ "." ++ pad4 y.

(** "Include the record if today <= birthday_this_year <= today + 7 days;
    days_left = birthday_this_year - today in whole days": the lines one
    record contributes. *)
Definition upcoming_rows (today next_week : datetime) (r : record)
  : list row :=
  match birthday r with
  | None => []
  | Some b =>
      match replace_year (value b) (year today) with
      | Raise _ => []
      | Ok birthday_this_year =>
          if datetime_le today birthday_this_year
             && datetime_le birthday_this_year next_week
          then [mkRow (value (name r)) b
                  (days (datetime_sub birthday_this_year today))]
          else []
      end
  end.

(** The birthday of the record can be moved to the year [y]. *)
Definition movable (y : Z) (r : record) : Prop :=
  forall b, birthday r = Some b ->
  exists birthday_this_year,
    replace_year (value b) y = Ok birthday_this_year.

(* ------------------------------------------------------------------ *)
(** ** Finite enumerations

    The characters of a class and the texts of an alternative, listed; the
    proofs about the date pattern go through these lists. *)

Fixpoint Zrange (lo : Z) (n : nat) : list Z :=
  match n with
  | O => []
  | S n' => lo :: Zrange (lo + 1) n'
  end.

Definition cclass_chars (k : cclass) : list ascii :=
  match k with
  | CRange lo hi => map chr (Zrange lo (Z.to_nat (hi - lo + 1)))
  | CDigit => map chr (Zrange 48 10)
  end.

Fixpoint alt_texts (a : list cclass) : list string :=
  match a with
  | [] => [""]
  | k :: a' =>
      flat_map (fun c => map (String c) (alt_texts a')) (cclass_chars k)
  end.

(** Ten superscript twos, U+00B2: a string of ten digits for [isdigit], none
    of them decimal. *)
Definition superscript_twos : string :=
  let c := chr 178 in
  String c (String c (String c (String c (String c
    (String c (String c (String c (String c (String c ""))))))))).

(** What [Phone] takes: length 10, digits for [isdigit]. *)
Definition phone_ok (p : string) : bool :=
  (len p =? 10) && all_chars chr_isdigit p.

(** A run of whitespace; a word: at least one character, none of them
    whitespace; words, each followed by the whitespace after it. *)
Definition blank (s : string) : bool := all_chars isspace s.

Definition is_word (w : string) : bool :=
  nonempty w && all_chars (fun c => negb (isspace c)) w.

Fixpoint spaced (items : list (string * string)) : string :=
  match items with
  | [] => ""
  | (w, ws) :: rest => w ++ ws ++ spaced rest
  end.

Definition gap_ok (item : string * string) : Prop :=
  is_word (fst item) = true /\ blank (snd item) = true /\ snd item <> "".

(** Every record stands under its own name. *)
Definition keyed_by_name (book : AddressBook) : Prop :=
  Forall (fun kv => value (name (snd kv)) = fst kv) book.

(** A birthday as [Birthday] builds it: midnight of a real date. *)
Definition birthday_ok (b : Birthday) : Prop :=
  exists y m d,
    real_date y m d = true /\ value b = mkDatetime y m d 0 0 0 0.

Definition birthdays_ok (book : AddressBook) : Prop :=
  Forall (fun kv => forall b, birthday (snd kv) = Some b -> birthday_ok b)
    book.

(** What holds of every book the commands build. *)
Definition book_inv (book : AddressBook) : Prop :=
  unique_keys book /\ keyed_by_name book /\ birthdays_ok book.

(** The names of [book'] are those of [book], in their order, and
    possibly more after them. *)
Definition grows (book book' : AddressBook) : Prop :=
  exists more, dict_keys book' = (dict_keys book ++ more)%list.

(** A [datetime] object as the constructor admits it. *)
Definition valid_time (dt : datetime) : Prop :=
  0 <= hour dt < 24 /\ 0 <= minute dt < 60 /\ 0 <= second dt < 60 /\
  0 <= microsecond dt < 1000000.

Definition valid_datetime (dt : datetime) : Prop :=
  real_date (year dt) (month dt) (day dt) = true /\ valid_time dt.

(** Microseconds since the midnight before 0001-01-01. *)
Definition timestamp (dt : datetime) : Z :=
  (toordinal dt * 86400 + secs_of_day dt) * 1000000 + microsecond dt.

(** The end of [_ord2ymd]: month and day of the day number [n], counted
    from 0, of a year that is a leap year or not. *)
Definition month_day (leapyear : bool) (n : Z) : Z * Z :=
  let month := Z.shiftr (n + 50) 5 in
  let preceding :=
    index _DAYS_BEFORE_MONTH month
    + (if (2 <? month) && leapyear then 1 else 0) in
  if n <? preceding then
    let month := month - 1 in
    let preceding :=
      preceding
      - (index _DAYS_IN_MONTH month
         + (if (month =? 2) && leapyear then 1 else 0)) in
    (month, n - preceding + 1)
  else (month, n - preceding + 1).

(** [month_day] gives a day of a month, the one with that day number. *)
Definition month_day_ok (leapyear : bool) (n : Z) : bool :=
  let '(m, d) := month_day leapyear n in
  (1 <=? m) && (m <=? 12) && (1 <=? d)
  && (d <=? (if (m =? 2) && leapyear then 29 else index _DAYS_IN_MONTH m))
  && (index _DAYS_BEFORE_MONTH m
      + (if (2 <? m) && leapyear then 1 else 0) + d =? n + 1).

(** [f] holds of [lo], [lo + 1], ..., [lo + len - 1]. *)
Fixpoint all_from (f : Z -> bool) (lo : Z) (len : positive) : bool :=
  match len with
  | xH => f lo
  | xO p => all_from f lo p && all_from f (lo + Z.pos p) p
  | xI p => f lo && all_from f (lo + 1) p && all_from f (lo + 1 + Z.pos p) p
  end.

(** The record has a birthday on the 29th of February. *)
Definition leap_day_birthday (r : record) : bool :=
  match birthday r with
  | Some b => (month (value b) =? 2) && (day (value b) =? 29)
  | None => false
  end.

(** What [birthdays] answers when nothing is raised. *)
Definition listing (rows : list row) : reply :=
  match rows with
  | [] => NoUpcoming
  | _ :: _ => Upcoming rows
  end.

(** The days from the day of [today] to the birthday in this year, one
    less when [today] is past midnight. *)
Definition whole_days_until (today : datetime) (b : Birthday) : Z :=
  _ymd2ord (year today) (month (value b)) (day (value b)) - toordinal today
  - (if (secs_of_day today =? 0) && (microsecond today =? 0) then 0 else 1).

(** A line of the answer, read against the book. *)
Definition line_ok (today : datetime) (contacts : AddressBook) (l : row)
  : Prop :=
  (exists r, In r (dict_values contacts) /\
             row_name l = value (name r) /\
             birthday r = Some (row_birthday l)) /\
  0 <= row_days_left l <= 7 /\
  row_days_left l = whole_days_until today (row_birthday l).

(** Every phone of the book is one that [Phone] takes. *)
Definition phones_ok (book : AddressBook) : Prop :=
  Forall (fun kv =>
            Forall (fun p => phone_ok (value p) = true) (phones (snd kv)))
    book.

(** No line of the run is a [change] command. *)
Definition without_change (inputs : list (datetime * string)) : Prop :=
  Forall (fun i => forall args, parse_input (snd i) <> Command "change" args)
    inputs.

(* ------------------------------------------------------------------ *)
(** * Properties *)

(** ** Dictionaries *)

Section Dict.

Context {V : Type}.
Implicit Types (d : list (string * V)) (k : string) (v : V).

Lemma dict_get_set_eq k v d : dict_get k (dict_set k v d) = Some v.
Proof.
  induction d as [|[k' v'] d IH]; simpl.
  - now rewrite String.eqb_refl.
  - destruct (String.eqb_spec k' k) as [->|Hne]; simpl.
    + now rewrite String.eqb_refl.
    + apply String.eqb_neq in Hne. now rewrite Hne.
Qed.

Lemma dict_get_set_ne k k0 v d :
  k <> k0 -> dict_get k0 (dict_set k v d) = dict_get k0 d.
Proof.
  intros Hne. induction d as [|[k' v'] d IH]; simpl.
  - apply String.eqb_neq in Hne. now rewrite Hne.
  - destruct (String.eqb_spec k' k) as [->|Hk]; simpl.
    + apply String.eqb_neq in Hne. now rewrite Hne.
    + now rewrite IH.
Qed.

Lemma dict_set_set k v1 v2 d :
  dict_set k v2 (dict_set k v1 d) = dict_set k v2 d.
Proof.
  induction d as [|[k' v'] d IH]; simpl.
  - now rewrite String.eqb_refl.
  - destruct (String.eqb_spec k' k) as [->|Hk]; simpl.
    + now rewrite String.eqb_refl.
    + apply String.eqb_neq in Hk. rewrite Hk. now rewrite IH.
Qed.

Lemma dict_get_None k d : dict_get k d = None <-> ~ In k (dict_keys d).
Proof.
  induction d as [|[k' v'] d IH]; simpl.
  - tauto.
  - destruct (String.eqb_spec k' k) as [->|Hk].
    + split; [discriminate | tauto].
    + rewrite IH. tauto.
Qed.

Lemma dict_set_absent k v d :
  dict_get k d = None -> dict_set k v d = (d ++ [(k, v)])%list.
Proof.
  induction d as [|[k' v'] d IH]; simpl; [reflexivity|].
  destruct (k' =? k)%string; [discriminate|].
  intros H. now rewrite IH.
Qed.

Lemma dict_keys_set_present k v d :
  In k (dict_keys d) -> dict_keys (dict_set k v d) = dict_keys d.
Proof.
  induction d as [|[k' v'] d IH]; simpl; [tauto|].
  destruct (String.eqb_spec k' k) as [->|Hk]; simpl; [reflexivity|].
  intros [H|H]; [contradiction|]. now rewrite IH.
Qed.

Lemma dict_set_unique k v d :
  NoDup (dict_keys d) -> NoDup (dict_keys (dict_set k v d)).
Proof.
  intros Hd.
  destruct (in_dec string_dec k (dict_keys d)) as [Hin|Hout].
  - now rewrite dict_keys_set_present.
  - apply dict_get_None in Hout as Hget.
    rewrite (dict_set_absent _ _ _ Hget).
    unfold dict_keys in *. rewrite map_app. simpl.
    apply NoDup_app; [assumption | repeat constructor; simpl; tauto |].
    intros x Hx [<-|[]]. contradiction.
Qed.

Lemma dict_get_del_ne k k0 d :
  k <> k0 -> dict_get k0 (dict_del k d) = dict_get k0 d.
Proof.
  intros Hne. induction d as [|[k' v'] d IH]; simpl; [reflexivity|].
  destruct (String.eqb_spec k' k) as [->|Hk]; simpl.
  - apply String.eqb_neq in Hne. now rewrite Hne.
  - now rewrite IH.
Qed.

Lemma dict_del_absent k d : dict_get k d = None -> dict_del k d = d.
Proof.
  induction d as [|[k' v'] d IH]; simpl; [reflexivity|].
  destruct (k' =? k)%string; [discriminate|].
  intros H. now rewrite IH.
Qed.

Lemma dict_del_filter k d :
  NoDup (dict_keys d) ->
  dict_del k d = filter (fun kv => negb (fst kv =? k)%string) d.
Proof.
  induction d as [|[k' v'] d IH]; simpl; [reflexivity|].
  intros Hd. inversion Hd as [|? ? Hnotin Hd']; subst.
  destruct (String.eqb_spec k' k) as [->|Hk]; simpl.
  - apply dict_get_None in Hnotin.
    rewrite <- (IH Hd'). symmetry. now apply dict_del_absent.
  - now rewrite IH.
Qed.

Lemma dict_get_del_eq k d :
  NoDup (dict_keys d) -> dict_get k (dict_del k d) = None.
Proof.
  induction d as [|[k' v'] d IH]; simpl; [reflexivity|].
  intros Hd. inversion Hd as [|? ? Hnotin Hd']; subst.
  destruct (String.eqb_spec k' k) as [->|Hk]; simpl.
  - now apply dict_get_None.
  - apply String.eqb_neq in Hk. rewrite Hk. auto.
Qed.

Lemma dict_del_unique k d :
  NoDup (dict_keys d) -> NoDup (dict_keys (dict_del k d)).
Proof.
  intros Hd. rewrite (dict_del_filter _ _ Hd).
  clear - Hd. induction d as [|[k' v'] d IH]; simpl; [constructor|].
  inversion Hd as [|? ? Hnotin Hd']; subst.
  destruct (k' =? k)%string; simpl; [auto|].
  constructor; [|auto].
  intros Hin. apply Hnotin. unfold dict_keys in *.
  apply in_map_iff in Hin as [[k0 v0] [Heq Hin]].
  apply in_map_iff. exists (k0, v0). split; [assumption|].
  now apply filter_In in Hin.
Qed.

(** The entry [dict_get] finds is the one [dict_del] takes out. *)
Lemma dict_get_split k v d :
  dict_get k d = Some v ->
  exists d1 d2,
    d = (d1 ++ (k, v) :: d2)%list /\ dict_del k d = (d1 ++ d2)%list.
Proof.
  induction d as [|[k' v'] d IH]; simpl; [discriminate|].
  destruct (String.eqb_spec k' k) as [->|Hk].
  - intros [= ->]. now exists [], d.
  - intros H. destruct (IH H) as (d1 & d2 & -> & Hdel).
    exists ((k', v') :: d1), d2. simpl. now rewrite Hdel.
Qed.

End Dict.

(** The operations of the book keep its keys unique. *)
Lemma AddressBook_add_record_unique r book :
  unique_keys book -> unique_keys (AddressBook_add_record r book).
Proof. apply dict_set_unique. Qed.

Lemma AddressBook_delete_unique n book :
  unique_keys book -> unique_keys (AddressBook_delete n book).
Proof.
  intros H. unfold AddressBook_delete.
  destruct (dict_contains n book); [now apply dict_del_unique | assumption].
Qed.

(** So do the handlers: a book built by the commands has unique keys. *)
Lemma add_contact_unique args contacts :
  unique_keys contacts -> unique_keys (snd (add_contact args contacts)).
Proof.
  intros H. unfold add_contact.
  destruct args as [|n [|phone rest]]; try assumption.
  destruct (AddressBook_find n contacts) as [r|]; cbn;
    destruct (nonempty phone); cbn [snd];
    try destruct (Record_add_phone phone _); cbn [snd];
    repeat apply dict_set_unique; assumption.
Qed.

Lemma change_contact_unique args contacts :
  unique_keys contacts -> unique_keys (snd (change_contact args contacts)).
Proof.
  intros H. unfold change_contact.
  destruct args as [|n [|old [|new [|? ?]]]]; try assumption.
  destruct (AddressBook_find n contacts); cbn [snd];
    [now apply dict_set_unique | assumption].
Qed.

Lemma add_birthday_unique args contacts :
  unique_keys contacts -> unique_keys (snd (add_birthday args contacts)).
Proof.
  intros H. unfold add_birthday.
  destruct args as [|n [|date rest]]; try assumption.
  destruct (AddressBook_find n contacts) as [r|]; [|assumption].
  destruct (Record_add_birthday date r); cbn [snd];
    [now apply dict_set_unique | assumption].
Qed.

(* ------------------------------------------------------------------ *)
(** ** Characters, digits and the date pattern *)

Lemma ord_bounds c : 0 <= ord c < 256.
Proof.
  unfold ord. pose proof (N_ascii_bounded c). lia.
Qed.

Lemma chr_ord c : chr (ord c) = c.
Proof. unfold chr, ord. rewrite N2Z.id. apply ascii_N_embedding. Qed.

Lemma ord_chr n : 0 <= n < 256 -> ord (chr n) = n.
Proof.
  intros H. unfold chr, ord. rewrite N_ascii_embedding by lia. lia.
Qed.

Lemma Zrange_In lo n z : lo <= z < lo + Z.of_nat n -> In z (Zrange lo n).
Proof.
  revert lo. induction n as [|n IH]; intros lo H; [lia|].
  simpl. destruct (Z.eq_dec lo z); [now left|]. right. apply IH. lia.
Qed.

Lemma cclass_matches_In k c :
  cclass_matches k c = true -> In c (cclass_chars k).
Proof.
  intros H. rewrite <- (chr_ord c).
  destruct k as [lo hi|]; unfold cclass_chars, cclass_matches in *;
    apply in_map, Zrange_In; unfold is_decimal in *; lia.
Qed.

Lemma first_alt_inv g k s caps r :
  first_alt g s k = Some (caps, r) ->
  exists a t s' caps',
    In a g /\ match_alt a s = Some (t, s') /\
    k s' = Some (caps', r) /\ caps = t :: caps'.
Proof.
  induction g as [|a g IH]; simpl; [discriminate|].
  destruct (match_alt a s) as [[t s']|] eqn:Ha.
  - destruct (k s') as [[caps' r']|] eqn:Hs.
    + intros [= <- <-]. exists a, t, s', caps'. auto.
    + intros H. destruct (IH H) as (a0 & t0 & s0 & c0 & Hin & Hrest).
      exists a0, t0, s0, c0. tauto.
  - intros H. destruct (IH H) as (a0 & t0 & s0 & c0 & Hin & Hrest).
    exists a0, t0, s0, c0. tauto.
Qed.

Lemma match_alt_app a s t r : match_alt a s = Some (t, r) -> s = t ++ r.
Proof.
  revert s t r. induction a as [|k a IH]; intros s t r; simpl.
  - now intros [= <- <-].
  - destruct s as [|c s]; [discriminate|].
    destruct (cclass_matches k c); [|discriminate].
    destruct (match_alt a s) as [[t' r']|] eqn:Ha; [|discriminate].
    intros [= <- <-]. simpl. f_equal. now apply IH.
Qed.

Lemma match_alt_texts a s t r :
  match_alt a s = Some (t, r) -> In t (alt_texts a).
Proof.
  revert s t r. induction a as [|k a IH]; intros s t r; simpl.
  - intros [= <- <-]. now left.
  - destruct s as [|c s]; [discriminate|].
    destruct (cclass_matches k c) eqn:Hc; [|discriminate].
    destruct (match_alt a s) as [[t' r']|] eqn:Ha; [|discriminate].
    intros [= <- <-]. apply in_flat_map. exists c.
    split; [now apply cclass_matches_In|].
    apply in_map. eapply IH, Ha.
Qed.

Ltac in_list := repeat (first [left; reflexivity | right]).

Lemma re_d_texts t :
  In t (flat_map alt_texts re_d) ->
  exists d, int t = Ok d /\ 1 <= d <= 31 /\ In t (day_texts d).
Proof.
  intros H. vm_compute in H.
  repeat (destruct H as [H|H];
          [subst t; eexists; split; [vm_compute; reflexivity|];
           split; [lia|]; vm_compute; in_list|]).
  contradiction.
Qed.

Lemma re_m_texts t :
  In t (flat_map alt_texts re_m) ->
  exists m, int t = Ok m /\ 1 <= m <= 12 /\ In t (month_texts m).
Proof.
  intros H. vm_compute in H.
  repeat (destruct H as [H|H];
          [subst t; eexists; split; [vm_compute; reflexivity|];
           split; [lia|]; vm_compute; in_list|]).
  contradiction.
Qed.

Lemma ord_digit_char k : 0 <= k <= 9 -> ord (digit_char k) = 48 + k.
Proof. intros H. unfold digit_char. apply ord_chr. lia. Qed.

Lemma is_decimal_digit_char k : 0 <= k <= 9 -> is_decimal (digit_char k) = true.
Proof.
  intros H. unfold is_decimal. rewrite (ord_digit_char _ H). lia.
Qed.

Lemma is_decimal_inv c :
  is_decimal c = true -> exists k, 0 <= k <= 9 /\ c = digit_char k.
Proof.
  intros H. exists (ord c - 48). unfold is_decimal in H.
  split; [lia|]. unfold digit_char.
  replace (48 + (ord c - 48)) with (ord c) by lia.
  symmetry. apply chr_ord.
Qed.

Lemma read_digits_digit acc k s :
  0 <= k <= 9 ->
  read_digits acc (String (digit_char k) s) = read_digits (10 * acc + k) s.
Proof.
  intros H. simpl. rewrite (is_decimal_digit_char _ H), (ord_digit_char _ H).
  f_equal. lia.
Qed.

Lemma int_digit k s :
  0 <= k <= 9 ->
  int (String (digit_char k) s) = read_digits k s.
Proof.
  intros H. cbn [int]. rewrite (ord_digit_char _ H).
  destruct (Z.eqb_spec (48 + k) 32); [lia|].
  now rewrite read_digits_digit.
Qed.

Lemma pad4_digits k1 k2 k3 k4 :
  0 <= k1 <= 9 -> 0 <= k2 <= 9 -> 0 <= k3 <= 9 -> 0 <= k4 <= 9 ->
  pad4 (1000 * k1 + 100 * k2 + 10 * k3 + k4) =
  String (digit_char k1) (String (digit_char k2)
    (String (digit_char k3) (String (digit_char k4) ""))).
Proof.
  intros H1 H2 H3 H4. unfold pad4, pad2.
  repeat f_equal; Z.div_mod_to_equations; lia.
Qed.

Lemma pad2_digits k1 k2 :
  0 <= k1 <= 9 -> 0 <= k2 <= 9 ->
  pad2 (10 * k1 + k2) = String (digit_char k1) (String (digit_char k2) "").
Proof.
  intros H1 H2. unfold pad2.
  repeat f_equal; Z.div_mod_to_equations; lia.
Qed.

Lemma int_digits4 k1 k2 k3 k4 :
  0 <= k1 <= 9 -> 0 <= k2 <= 9 -> 0 <= k3 <= 9 -> 0 <= k4 <= 9 ->
  int (String (digit_char k1) (String (digit_char k2)
    (String (digit_char k3) (String (digit_char k4) "")))) =
  Ok (1000 * k1 + 100 * k2 + 10 * k3 + k4).
Proof.
  intros H1 H2 H3 H4. rewrite int_digit by assumption.
  rewrite !read_digits_digit by assumption. cbn [read_digits]. f_equal. lia.
Qed.

Lemma int_digits2 k1 k2 :
  0 <= k1 <= 9 -> 0 <= k2 <= 9 ->
  int (String (digit_char k1) (String (digit_char k2) "")) =
  Ok (10 * k1 + k2).
Proof.
  intros H1 H2. rewrite int_digit by assumption.
  rewrite !read_digits_digit by assumption. cbn [read_digits]. f_equal.
Qed.

Lemma decimal_digits y :
  0 <= y <= 9999 ->
  exists k1 k2 k3 k4,
    0 <= k1 <= 9 /\ 0 <= k2 <= 9 /\ 0 <= k3 <= 9 /\ 0 <= k4 <= 9 /\
    y = 1000 * k1 + 100 * k2 + 10 * k3 + k4.
Proof.
  intros H.
  exists (y / 1000), (y / 100 mod 10), (y / 10 mod 10), (y mod 10).
  Z.div_mod_to_equations. lia.
Qed.

Lemma re_Y_inv a s t r :
  In a re_Y -> match_alt a s = Some (t, r) ->
  exists y, int t = Ok y /\ 0 <= y <= 9999 /\ t = pad4 y.
Proof.
  intros [<-|[]]. cbn [match_alt cclass_matches].
  destruct s as [|c1 [|c2 [|c3 [|c4 s]]]];
    repeat match goal with
           | |- context [is_decimal ?c] =>
               let H := fresh "Hd" in
               destruct (is_decimal c) eqn:H; try discriminate
           end; try discriminate.
  intros [= <- <-].
  apply is_decimal_inv in Hd as (k1 & Hk1 & ->).
  apply is_decimal_inv in Hd0 as (k2 & Hk2 & ->).
  apply is_decimal_inv in Hd1 as (k3 & Hk3 & ->).
  apply is_decimal_inv in Hd2 as (k4 & Hk4 & ->).
  exists (1000 * k1 + 100 * k2 + 10 * k3 + k4).
  split; [now apply int_digits4|]. split; [lia|].
  symmetry. now apply pad4_digits.
Qed.

Lemma lit_inv c a s t r :
  In a (lit c) -> match_alt a s = Some (t, r) ->
  0 <= c < 256 -> t = String (chr c) "".
Proof.
  intros [<-|[]]. cbn [match_alt cclass_matches].
  destruct s as [|c1 s]; [discriminate|].
  destruct ((c <=? ord c1) && (ord c1 <=? c)) eqn:Hc; [|discriminate].
  intros [= <- <-] Hb. f_equal.
  rewrite <- (chr_ord c1). f_equal. lia.
Qed.

Lemma re_d_complete d ds k tail :
  1 <= d <= 31 -> In ds (day_texts d) ->
  first_alt re_d (ds ++ "." ++ tail) (fun r => first_alt (lit 46) r k) =
  match k tail with
  | Some (caps, r) => Some (ds :: "." :: caps, r)
  | None => None
  end.
Proof.
  intros Hd Hds.
  assert (H : In d (Zrange 1 31)) by (apply Zrange_In; lia).
  vm_compute in H.
  repeat (destruct H as [H|H];
          [subst d; vm_compute in Hds;
           repeat (destruct Hds as [Hds|Hds];
                   [subst ds; vm_compute; destruct (k tail) as [[caps r]|];
                    reflexivity|]);
           contradiction|]).
  contradiction.
Qed.

Lemma re_m_complete m ms k tail :
  1 <= m <= 12 -> In ms (month_texts m) ->
  first_alt re_m (ms ++ "." ++ tail) (fun r => first_alt (lit 46) r k) =
  match k tail with
  | Some (caps, r) => Some (ms :: "." :: caps, r)
  | None => None
  end.
Proof.
  intros Hm Hms.
  assert (H : In m (Zrange 1 12)) by (apply Zrange_In; lia).
  vm_compute in H.
  repeat (destruct H as [H|H];
          [subst m; vm_compute in Hms;
           repeat (destruct Hms as [Hms|Hms];
                   [subst ms; vm_compute; destruct (k tail) as [[caps r]|];
                    reflexivity|]);
           contradiction|]).
  contradiction.
Qed.

Lemma re_Y_complete y :
  0 <= y <= 9999 ->
  first_alt re_Y (pad4 y) (match_seq []) = Some ([pad4 y], "").
Proof.
  intros Hy.
  destruct (decimal_digits y Hy) as (k1 & k2 & k3 & k4 & H1 & H2 & H3 & H4 & ->).
  rewrite pad4_digits by assumption.
  cbn [first_alt re_Y match_alt cclass_matches].
  now rewrite !is_decimal_digit_char by assumption.
Qed.

Lemma int_pad4 y : 0 <= y <= 9999 -> int (pad4 y) = Ok y.
Proof.
  intros Hy.
  destruct (decimal_digits y Hy) as (k1 & k2 & k3 & k4 & H1 & H2 & H3 & H4 & ->).
  rewrite pad4_digits by assumption. now apply int_digits4.
Qed.

Lemma day_texts_int d ds :
  1 <= d <= 31 -> In ds (day_texts d) -> int ds = Ok d.
Proof.
  intros Hd Hds.
  assert (H : In d (Zrange 1 31)) by (apply Zrange_In; lia).
  vm_compute in H.
  repeat (destruct H as [H|H];
          [subst d; vm_compute in Hds;
           repeat (destruct Hds as [Hds|Hds]; [subst ds; reflexivity|]);
           contradiction|]).
  contradiction.
Qed.

Lemma month_texts_int m ms :
  1 <= m <= 12 -> In ms (month_texts m) -> int ms = Ok m.
Proof.
  intros Hm Hms.
  assert (H : In m (Zrange 1 12)) by (apply Zrange_In; lia).
  vm_compute in H.
  repeat (destruct H as [H|H];
          [subst m; vm_compute in Hms;
           repeat (destruct Hms as [Hms|Hms]; [subst ms; reflexivity|]);
           contradiction|]).
  contradiction.
Qed.

Lemma check_date_fields_real y m d :
  _check_date_fields y m d =
  if real_date y m d then Ok tt else Raise ValueError.
Proof.
  unfold _check_date_fields, real_date, MINYEAR, MAXYEAR.
  destruct (1 <=? y), (y <=? 9999), (1 <=? m), (m <=? 12), (1 <=? d),
    (d <=? _days_in_month y m); reflexivity.
Qed.

Lemma real_date_bounds y m d :
  real_date y m d = true ->
  1 <= y <= 9999 /\ 1 <= m <= 12 /\ 1 <= d <= 31.
Proof.
  unfold real_date. intros H.
  repeat (apply andb_true_iff in H as [H ?]).
  assert (Hm : In m (Zrange 1 12)) by (apply Zrange_In; lia).
  assert (_days_in_month y m <= 31).
  { unfold _days_in_month. vm_compute in Hm.
    destruct (_is_leap y);
      repeat (destruct Hm as [Hm|Hm]; [subst m; vm_compute; discriminate|]);
      contradiction. }
  lia.
Qed.

Lemma strptime_dmY_complete y m d ds ms :
  real_date y m d = true ->
  In ds (day_texts d) -> In ms (month_texts m) ->
  strptime_dmY (date_text ds ms y) = Ok (mkDatetime y m d 0 0 0 0).
Proof.
  intros Hreal Hds Hms.
  destruct (real_date_bounds _ _ _ Hreal) as (Hy & Hm & Hd).
  unfold strptime_dmY, date_text, re_dmY. cbn [match_seq].
  rewrite (re_d_complete d ds _ _ Hd Hds).
  rewrite (re_m_complete m ms _ _ Hm Hms).
  rewrite re_Y_complete by lia.
  rewrite (day_texts_int _ _ Hd Hds), (month_texts_int _ _ Hm Hms).
  rewrite int_pad4 by lia. cbn [bind].
  unfold datetime_ymd. rewrite check_date_fields_real, Hreal. reflexivity.
Qed.

Lemma strptime_dmY_inv x dt :
  strptime_dmY x = Ok dt ->
  exists y m d ds ms,
    real_date y m d = true /\ In ds (day_texts d) /\ In ms (month_texts m) /\
    x = date_text ds ms y /\ dt = mkDatetime y m d 0 0 0 0.
Proof.
  unfold strptime_dmY.
  destruct (match_seq re_dmY x) as [[caps r]|] eqn:H; [|discriminate].
  unfold re_dmY in H. cbn [match_seq] in H.
  apply first_alt_inv in H as (a1 & t1 & s1 & c1 & Ha1 & Hm1 & H & ->).
  apply first_alt_inv in H as (a2 & t2 & s2 & c2 & Ha2 & Hm2 & H & ->).
  apply first_alt_inv in H as (a3 & t3 & s3 & c3 & Ha3 & Hm3 & H & ->).
  apply first_alt_inv in H as (a4 & t4 & s4 & c4 & Ha4 & Hm4 & H & ->).
  apply first_alt_inv in H as (a5 & t5 & s5 & c5 & Ha5 & Hm5 & H & ->).
  injection H as <- <-.
  destruct s5 as [|c s5]; [|discriminate].
  pose proof (match_alt_app _ _ _ _ Hm1) as ->.
  pose proof (match_alt_app _ _ _ _ Hm2) as ->.
  pose proof (match_alt_app _ _ _ _ Hm3) as ->.
  pose proof (match_alt_app _ _ _ _ Hm4) as ->.
  pose proof (match_alt_app _ _ _ _ Hm5) as ->.
  assert (Hd : In t1 (flat_map alt_texts re_d)).
  { apply in_flat_map. exists a1. split; [assumption|].
    eapply match_alt_texts, Hm1. }
  assert (Hmo : In t3 (flat_map alt_texts re_m)).
  { apply in_flat_map. exists a3. split; [assumption|].
    eapply match_alt_texts, Hm3. }
  apply re_d_texts in Hd as (d & Hid & Hd & Hds).
  apply re_m_texts in Hmo as (m & Him & Hm & Hms).
  destruct (re_Y_inv _ _ _ _ Ha5 Hm5) as (y & Hiy & Hy & ->).
  rewrite (lit_inv _ _ _ _ _ Ha2 Hm2) by lia.
  rewrite (lit_inv _ _ _ _ _ Ha4 Hm4) by lia.
  rewrite Hiy, Him, Hid. cbn [bind].
  unfold datetime_ymd. rewrite check_date_fields_real.
  destruct (real_date y m d) eqn:Hreal; [|discriminate].
  intros [= <-]. exists y, m, d, t1, t3.
  repeat split; try assumption.
Qed.

Lemma read_digits_raises s acc e :
  read_digits acc s = Raise e -> e = ValueError.
Proof.
  revert acc. induction s as [|c s IH]; intros acc; simpl; [discriminate|].
  destruct (is_decimal c); [apply IH | now intros [= <-]].
Qed.

Lemma int_raises s e : int s = Raise e -> e = ValueError.
Proof.
  induction s as [|c s IH]; cbn [int]; [now intros [= <-]|].
  destruct (ord c =? 32); [assumption | apply read_digits_raises].
Qed.

Lemma strptime_dmY_raises x e : strptime_dmY x = Raise e -> e = ValueError.
Proof.
  unfold strptime_dmY.
  destruct (match_seq re_dmY x) as [[caps r]|]; [|now intros [= <-]].
  destruct caps as [|t1 [|t2 [|t3 [|t4 [|t5 [|t6 caps]]]]]];
    destruct r; try (now intros [= <-]).
  destruct (int t1) as [d|e1] eqn:Hd; cbn [bind];
    [|intros [= <-]; eapply int_raises, Hd].
  destruct (int t3) as [m|e1] eqn:Hm; cbn [bind];
    [|intros [= <-]; eapply int_raises, Hm].
  destruct (int t5) as [y|e1] eqn:Hy; cbn [bind];
    [|intros [= <-]; eapply int_raises, Hy].
  unfold datetime_ymd. rewrite check_date_fields_real.
  destruct (real_date y m d); cbn [bind]; [discriminate | now intros [= <-]].
Qed.

Lemma Birthday_init_Ok x b :
  Birthday_init x = Ok b <-> strptime_dmY x = Ok (value b).
Proof.
  unfold Birthday_init. destruct b as [v]. cbn [value].
  destruct (strptime_dmY x) as [dt|[]];
    split; intros H; try discriminate; now inversion H.
Qed.

Lemma digit_value_digit_char k :
  0 <= k <= 9 -> digit_value (digit_char k) = k.
Proof.
  intros H. unfold digit_value. rewrite (ord_digit_char _ H). lia.
Qed.

Lemma spec_date_of_text x y m d :
  spec_date_of x = Some (y, m, d) ->
  real_date y m d = true /\ x = date_text (pad2 d) (pad2 m) y.
Proof.
  unfold spec_date_of.
  destruct x as [|d1 [|d2 [|p1 [|m1 [|m2 [|p2 [|y1 [|y2 [|y3 [|y4 [|? ?]]]]]]]]]]];
    try discriminate.
  destruct (forallb _ _ && _ && _) eqn:H; [|discriminate].
  apply andb_true_iff in H as [H Hp2].
  apply andb_true_iff in H as [H Hp1].
  cbn [forallb] in H.
  repeat (apply andb_true_iff in H as [? H]).
  repeat match goal with
         | Hc : is_decimal ?c = true |- _ =>
             let k := fresh "k" in
             apply is_decimal_inv in Hc as (k & ? & ->)
         end.
  rewrite !digit_value_digit_char by assumption.
  match goal with
  | |- context [real_date ?a ?b ?c] =>
      remember a as y' eqn:Ey; remember b as m' eqn:Em;
      remember c as d' eqn:Ed; destruct (real_date y' m' d') eqn:Hreal
  end; [|discriminate].
  intros [= <- <- <-]. split; [assumption|].
  subst y' m' d'. unfold date_text.
  rewrite !pad2_digits, pad4_digits by assumption.
  cbn [append].
  rewrite <- (chr_ord p1), <- (chr_ord p2).
  apply Z.eqb_eq in Hp1, Hp2. rewrite Hp1, Hp2. reflexivity.
Qed.

(* ------------------------------------------------------------------ *)
(** ** Birthday *)

Lemma strftime_dmY_padded y m d :
  strftime_dmY Padded (mkDatetime y m d 0 0 0 0) =
  date_text (pad2 d) (pad2 m) y.
Proof. reflexivity. Qed.

Lemma unpadded_four_digits y : 1000 <= y -> unpadded y = pad4 y.
Proof.
  intros H. unfold unpadded.
  destruct (Z.ltb_spec y 10); [lia|].
  destruct (Z.ltb_spec y 100); [lia|].
  destruct (Z.ltb_spec y 1000); [lia | reflexivity].
Qed.




(* ------------------------------------------------------------------ *)
(** ** Phone numbers *)

Lemma isdigit_all_chars s :
  len s = 10 -> isdigit s = all_chars chr_isdigit s.
Proof. destruct s; [discriminate | reflexivity]. Qed.

Lemma is_decimal_isdigit c : is_decimal c = true -> chr_isdigit c = true.
Proof. unfold chr_isdigit. now intros ->. Qed.

Lemma all_decimal_all_isdigit s :
  all_chars is_decimal s = true -> all_chars chr_isdigit s = true.
Proof.
  induction s as [|c s IH]; simpl; [reflexivity|].
  intros H. apply andb_true_iff in H as [Hc Hs].
  now rewrite (is_decimal_isdigit _ Hc), IH.
Qed.

(** The outcome of the constructor, case by case. *)
Lemma Phone_init_cases v :
  Phone_init v =
  if (len v =? 10) && all_chars chr_isdigit v then Ok (mkField v)
  else Raise ValueError.
Proof.
  unfold Phone_init. destruct (Z.eqb_spec (len v) 10) as [H|H]; simpl.
  - rewrite (isdigit_all_chars _ H).
    now destruct (all_chars chr_isdigit v).
  - now rewrite orb_true_r.
Qed.

(** C2, as stated, fails: a string of ten superscript digits has no decimal
    digit in it, and the constructor accepts it. *)
Lemma Phone_init_accepts_superscripts :
  ten_decimal_digits superscript_twos = false /\
  Phone_init superscript_twos = Ok (mkField superscript_twos).
Proof. split; reflexivity. Qed.

(** C2 (amended): [Phone(raw)] succeeds exactly when [raw] has length 10 and
    every character satisfies [str.isdigit], and it then stores [raw]
    unchanged; it raises [ValueError] for every other string.  Every string
    of ten decimal digits is among the accepted ones. *)
Theorem Phone_init_spec (raw : string) :
  (Phone_init raw = Ok (mkField raw) <->
   len raw = 10 /\ all_chars chr_isdigit raw = true) /\
  (Phone_init raw = Raise ValueError <->
   ~ (len raw = 10 /\ all_chars chr_isdigit raw = true)) /\
  (ten_decimal_digits raw = true -> Phone_init raw = Ok (mkField raw)).
Proof.
  rewrite Phone_init_cases. unfold ten_decimal_digits.
  destruct (Z.eqb_spec (len raw) 10) as [Hl|Hl]; simpl.
  - destruct (all_chars chr_isdigit raw) eqn:Hd.
    + split; [tauto|]. split; [|reflexivity].
      split; [discriminate | tauto].
    + split; [split; [discriminate | intros [_ H]; discriminate]|].
      split; [split; [intros _ [_ H]; discriminate | reflexivity]|].
      intros H. apply all_decimal_all_isdigit in H. congruence.
  - split; [split; [discriminate | tauto]|].
    split; [tauto | discriminate].
Qed.

Lemma Phone_init_spec_witness :
  ten_decimal_digits "0501234567" = true /\
  Phone_init "0501234567" = Ok (mkField "0501234567").
Proof.
  split; [reflexivity|].
  apply (proj2 (proj2 (Phone_init_spec "0501234567"))). reflexivity.
Defined.

(* ------------------------------------------------------------------ *)
(** ** Record *)

(** C1 fails on the code: [edit_phone] assigns the new value without
    building a [Phone].  With the stored phone "0501234567" and the new
    value "abc", which the constructor refuses, the method returns, the
    handler answers that the contact was changed, and the phone list now
    holds "abc". *)
Theorem edit_phone_skips_validation :
  let oleh := mkRecord (Name_init "Oleh") [mkField "0501234567"] None in
  Phone_init "abc" = Raise ValueError /\
  phones (Record_edit_phone "0501234567" "abc" oleh) = [mkField "abc"] /\
  phones (Record_edit_phone "0501234567" "abc" oleh) <> phones oleh /\
  change_contact ["Oleh"; "0501234567"; "abc"] [("Oleh", oleh)] =
    (ContactChanged,
     [("Oleh", mkRecord (Name_init "Oleh") [mkField "abc"] None)]).
Proof. repeat split; try reflexivity. discriminate. Qed.

(** Whatever the new value is, it replaces a stored phone equal to the old
    one. *)
Lemma edit_phone_loop_stores old new ps :
  In (mkField old) ps -> In (mkField new) (edit_phone_loop old new ps).
Proof.
  induction ps as [|p ps IH]; simpl; [tauto|].
  destruct (String.eqb_spec (value p) old) as [Heq|Hne].
  - intros _. now left.
  - intros [Hp|H]; [subst p; now contradiction Hne | right; auto].
Qed.

Lemma edit_phone_loop_absent old new ps :
  ~ In (mkField old) ps -> edit_phone_loop old new ps = ps.
Proof.
  induction ps as [|[p] ps IH]; simpl; [reflexivity|].
  destruct (String.eqb_spec p old) as [->|Hne].
  - intros H. exfalso. apply H. now left.
  - intros H. rewrite IH; [reflexivity | tauto].
Qed.

(** C4: [remove_phone(value)] is a total function (nothing is raised); the
    entries it leaves are exactly the entries whose value differs from
    [value], in their order and number; name and birthday stay; when no
    entry matches the record is as before. *)
Theorem Record_remove_phone_spec (v : string) (self : record) :
  let self' := Record_remove_phone v self in
  (forall p, In p (phones self') <-> In p (phones self) /\ value p <> v) /\
  (forall w, w <> v ->
     filter (fun p => (value p =? w)%string) (phones self') =
     filter (fun p => (value p =? w)%string) (phones self)) /\
  name self' = name self /\ birthday self' = birthday self /\
  ((forall p, In p (phones self) -> value p <> v) -> self' = self).
Proof.
  destruct self as [n ps b]. cbn.
  split; [|split; [|split; [reflexivity | split; [reflexivity|]]]].
  - intros p. rewrite filter_In, negb_true_iff, String.eqb_neq. tauto.
  - intros w Hw. induction ps as [|p ps IH]; simpl; [reflexivity|].
    destruct (String.eqb_spec (value p) v) as [Hv|Hv]; simpl.
    + destruct (String.eqb_spec (value p) w); [congruence | assumption].
    + now rewrite IH.
  - intros H. unfold Record_remove_phone; cbn. f_equal.
    induction ps as [|p ps IH]; simpl; [reflexivity|].
    destruct (String.eqb_spec (value p) v) as [Hv|Hv]; simpl.
    + exfalso. apply (H p); [now left | assumption].
    + rewrite IH; [reflexivity|]. intros q Hq. apply H. now right.
Qed.

Lemma Record_remove_phone_spec_witness :
  let self := mkRecord (Name_init "Oleh")
                [mkField "0501234567"; mkField "0507654321";
                 mkField "0501234567"] None in
  phones (Record_remove_phone "0501234567" self) = [mkField "0507654321"] /\
  Record_remove_phone "0000000000" self = self.
Proof.
  split; [reflexivity|].
  apply (Record_remove_phone_spec "0000000000").
  simpl. intros p [<-|[<-|[<-|[]]]]; discriminate.
Defined.

(* ------------------------------------------------------------------ *)
(** ** AddressBook *)

(** C5: after [add_record] with two records of one name, the book maps the
    name to the second record, the book is the one [add_record] with the
    second record alone gives (nothing of the first is kept), the other
    names are mapped as before, and the name is still the key of a single
    entry. *)
Theorem add_record_overwrites (book : AddressBook) (r1 r2 : record) :
  value (name r1) = value (name r2) ->
  let book' := AddressBook_add_record r2 (AddressBook_add_record r1 book) in
  AddressBook_find (value (name r2)) book' = Some r2 /\
  book' = AddressBook_add_record r2 book /\
  (forall n, n <> value (name r2) ->
     AddressBook_find n book' = AddressBook_find n book) /\
  (unique_keys book -> unique_keys book').
Proof.
  intros Hname book'. subst book'.
  unfold AddressBook_add_record, AddressBook_find. rewrite Hname.
  split; [apply dict_get_set_eq|].
  split; [apply dict_set_set|].
  split.
  - intros n Hn. rewrite !dict_get_set_ne by congruence. reflexivity.
  - intros H. now apply dict_set_unique, dict_set_unique.
Qed.

Lemma add_record_overwrites_witness :
  let r1 := mkRecord (Name_init "Oleh") [mkField "0501234567"] None in
  let r2 := mkRecord (Name_init "Oleh") [] None in
  AddressBook_find "Oleh"
    (AddressBook_add_record r2 (AddressBook_add_record r1 [])) = Some r2.
Proof.
  intros r1 r2.
  apply (add_record_overwrites [] r1 r2). reflexivity.
Defined.

(** C9: on a book, [delete(name)] raises nothing; it takes out the entry
    of that name and no other, so that the name is absent afterwards and
    every other entry is where it was; when the name is absent the book is
    unchanged. *)
Theorem delete_spec (book : AddressBook) (n : string) :
  unique_keys book ->
  let book' := AddressBook_delete n book in
  book' = filter (fun kv => negb (fst kv =? n)%string) book /\
  AddressBook_find n book' = None /\
  (forall k, k <> n -> AddressBook_find k book' = AddressBook_find k book) /\
  (AddressBook_find n book = None -> book' = book) /\
  unique_keys book'.
Proof.
  intros Hu book'. subst book'.
  unfold AddressBook_delete, AddressBook_find, dict_contains.
  destruct (dict_get n book) eqn:Hget.
  - split; [now apply dict_del_filter|].
    split; [now apply dict_get_del_eq|].
    split; [intros k Hk; apply dict_get_del_ne; congruence|].
    split; [discriminate | now apply dict_del_unique].
  - split.
    { rewrite <- (dict_del_filter _ _ Hu). symmetry.
      now apply dict_del_absent. }
    repeat split; auto.
Qed.

Lemma delete_spec_witness :
  let oleh := mkRecord (Name_init "Oleh") [mkField "0501234567"] None in
  let ira := mkRecord (Name_init "Ira") [] None in
  AddressBook_find "Oleh"
    (AddressBook_delete "Oleh" [("Oleh", oleh); ("Ira", ira)]) = None.
Proof.
  intros oleh ira.
  apply (delete_spec [("Oleh", oleh); ("Ira", ira)] "Oleh").
  repeat constructor; simpl; intuition discriminate.
Defined.

(* ------------------------------------------------------------------ *)
(** ** The [add] command *)




(* ------------------------------------------------------------------ *)
(** ** The [birthdays] command *)

Lemma tuple_cmp_opp xs ys : tuple_cmp ys xs = CompOpp (tuple_cmp xs ys).
Proof.
  revert ys. induction xs as [|x xs IH]; intros [|y ys]; simpl; auto.
  rewrite (Z.compare_antisym x y).
  destruct (x ?= y); simpl; auto.
Qed.

Lemma datetime_lt_not_le a b :
  datetime_lt a b = true -> datetime_le b a = false.
Proof.
  unfold datetime_lt, datetime_le, datetime_cmp.
  rewrite (tuple_cmp_opp (fields a) (fields b)).
  now destruct (tuple_cmp (fields a) (fields b)).
Qed.

Lemma birthdays_loop_app today next_week rs1 rs2 acc :
  birthdays_loop today next_week (rs1 ++ rs2) acc =
  (acc' <- birthdays_loop today next_week rs1 acc ;;
   birthdays_loop today next_week rs2 acc').
Proof.
  revert acc. induction rs1 as [|r rs1 IH]; intros acc; simpl; auto.
  destruct (birthday r) as [b|]; [|apply IH].
  destruct (replace_year (value b) (year today)) as [bty|e]; simpl; auto.
  destruct (datetime_le today bty && datetime_le bty next_week); apply IH.
Qed.

(** A record whose birthday in this year is over adds no line. *)
Lemma birthdays_loop_past today next_week r b bty rest acc :
  birthday r = Some b ->
  replace_year (value b) (year today) = Ok bty ->
  datetime_lt bty today = true ->
  birthdays_loop today next_week (r :: rest) acc =
  birthdays_loop today next_week rest acc.
Proof.
  intros Hb Hbty Hlt. simpl. rewrite Hb, Hbty. simpl.
  now rewrite (datetime_lt_not_le _ _ Hlt).
Qed.

(** When every birthday of the book can be moved to this year, the loop
    lists, in the order of the book, the records inside the window. *)
Lemma birthdays_loop_rows today next_week rs acc :
  Forall (movable (year today)) rs ->
  birthdays_loop today next_week rs acc =
  Ok (acc ++ flat_map (upcoming_rows today next_week) rs)%list.
Proof.
  intros H. revert acc. induction H as [|r rs Hr _ IH]; intros acc; simpl.
  - now rewrite app_nil_r.
  - unfold upcoming_rows. destruct (birthday r) as [b|] eqn:Hb.
    + destruct (Hr b Hb) as [bty ->]. cbn [bind].
      destruct (datetime_le today bty && datetime_le bty next_week).
      * rewrite IH. now rewrite <- app_assoc.
      * apply IH.
    + apply IH.
Qed.

(** C7: a record whose birthday, moved to today's year, is a date strictly
    before [today] is left out: the command answers what it answers for the
    book without that record.  Nothing moves the birthday to the next
    year. *)
Theorem birthdays_skips_past_birthday
  (args : list string) (contacts : AddressBook) (today : datetime)
  (n : string) (r : record) (b : Birthday) (birthday_this_year : datetime) :
  AddressBook_find n contacts = Some r ->
  birthday r = Some b ->
  replace_year (value b) (year today) = Ok birthday_this_year ->
  datetime_lt birthday_this_year today = true ->
  birthdays args contacts today =
  birthdays args (AddressBook_delete n contacts) today.
Proof.
  intros Hfind Hb Hbty Hlt.
  unfold AddressBook_delete, dict_contains, AddressBook_find in *.
  rewrite Hfind.
  destruct (dict_get_split _ _ _ Hfind) as (d1 & d2 & -> & ->).
  unfold birthdays. f_equal.
  destruct (datetime_add today (timedelta_new 7 0 0)) as [nw|e];
    [|reflexivity].
  cbn [bind]. f_equal. unfold dict_values. rewrite !map_app.
  rewrite !birthdays_loop_app. cbn [map snd].
  destruct (birthdays_loop today nw (map snd d1) []) as [acc|e];
    [|reflexivity].
  cbn [bind]. now apply birthdays_loop_past with (b := b) (bty := birthday_this_year).
Qed.

Lemma birthdays_skips_past_birthday_witness :
  let ira := mkRecord (Name_init "Ira") []
               (Some (mkField (mkDatetime 1990 1 2 0 0 0 0))) in
  let today := mkDatetime 2024 12 29 10 30 0 0 in
  birthdays [] [("Ira", ira)] today = NoUpcoming.
Proof.
  intros ira today.
  rewrite (birthdays_skips_past_birthday [] [("Ira", ira)] today "Ira" ira
             (mkField (mkDatetime 1990 1 2 0 0 0 0))
             (mkDatetime 2024 1 2 0 0 0 0));
    reflexivity.
Defined.

(** C8: the answer of [birthdays] does not depend on its arguments, and the
    window is seven days whatever they say: on 2024-01-01 a birthday on
    January 8 is listed, with 7 days left, and one on January 9 is not,
    also when the argument asks for 30 days. *)
Theorem birthdays_ignores_args
  (args1 args2 : list string) (contacts : AddressBook) (today : datetime) :
  birthdays args1 contacts today = birthdays args2 contacts today /\
  (let today := mkDatetime 2024 1 1 0 0 0 0 in
   let b8 := mkField (mkDatetime 1985 1 8 0 0 0 0) in
   let b9 := mkField (mkDatetime 1985 1 9 0 0 0 0) in
   birthdays ["30"]
     [("Ira", mkRecord (Name_init "Ira") [] (Some b8));
      ("Oleh", mkRecord (Name_init "Oleh") [] (Some b9))] today =
   Upcoming [mkRow "Ira" b8 7]).
Proof. split; reflexivity. Qed.

(** C6 fails on the code: a birthday on February 29 cannot be moved to a
    year that is not a leap year; [replace] raises [ValueError] and the
    decorator turns the whole answer into its text for that exception.  On
    2023-01-01 the birthday 03.01.1985 is two days ahead, inside the
    window, and it is not listed when the book also holds a record born on
    29.02.1984; without that record it is listed. *)
Theorem birthdays_leap_day_aborts :
  let today := mkDatetime 2023 1 1 0 0 0 0 in
  let ann := mkRecord (Name_init "Ann") []
               (Some (mkField (mkDatetime 1985 1 3 0 0 0 0))) in
  let bob := mkRecord (Name_init "Bob") []
               (Some (mkField (mkDatetime 1984 2 29 0 0 0 0))) in
  replace_year (mkDatetime 1985 1 3 0 0 0 0) (year today) =
    Ok (mkDatetime 2023 1 3 0 0 0 0) /\
  datetime_le today (mkDatetime 2023 1 3 0 0 0 0) = true /\
  datetime_add today (timedelta_new 7 0 0) =
    Ok (mkDatetime 2023 1 8 0 0 0 0) /\
  datetime_le (mkDatetime 2023 1 3 0 0 0 0) (mkDatetime 2023 1 8 0 0 0 0)
    = true /\
  replace_year (mkDatetime 1984 2 29 0 0 0 0) (year today) =
    Raise ValueError /\
  birthdays [] [("Ann", ann); ("Bob", bob)] today = GiveNameAndPhone /\
  birthdays [] [("Ann", ann)] today =
    Upcoming [mkRow "Ann" (mkField (mkDatetime 1985 1 3 0 0 0 0)) 2].
Proof. repeat split; reflexivity. Qed.

(** The two cases the specification works out, on the book that holds only
    that record and at midnight of 2024-01-01: 03.01.1985 is listed with
    two days left, 15.01.1985 is not listed. *)
Lemma birthdays_examples :
  let today := mkDatetime 2024 1 1 0 0 0 0 in
  let b3 := mkField (mkDatetime 1985 1 3 0 0 0 0) in
  let b15 := mkField (mkDatetime 1985 1 15 0 0 0 0) in
  birthdays [] [("Ann", mkRecord (Name_init "Ann") [] (Some b3))] today =
    Upcoming [mkRow "Ann" b3 2] /\
  birthdays [] [("Ann", mkRecord (Name_init "Ann") [] (Some b15))] today =
    NoUpcoming.
Proof. split; reflexivity. Qed.

(** [today] carries the time of day.  At noon of 2024-01-01 the birthday
    03.01.1985 is one whole day and twelve hours ahead, and a birthday on
    01.01 is already behind. *)
Lemma birthdays_at_noon :
  let today := mkDatetime 2024 1 1 12 0 0 0 in
  let b3 := mkField (mkDatetime 1985 1 3 0 0 0 0) in
  let b1 := mkField (mkDatetime 1985 1 1 0 0 0 0) in
  birthdays [] [("Ann", mkRecord (Name_init "Ann") [] (Some b3))] today =
    Upcoming [mkRow "Ann" b3 1] /\
  birthdays [] [("Ann", mkRecord (Name_init "Ann") [] (Some b1))] today =
    NoUpcoming.
Proof. split; reflexivity. Qed.

(* ------------------------------------------------------------------ *)
(** ** More on Record *)

Lemma Phone_init_ok p : phone_ok p = true -> Phone_init p = Ok (mkField p).
Proof. intros H. rewrite Phone_init_cases. unfold phone_ok in H. now rewrite H. Qed.

Lemma Phone_init_bad p : phone_ok p = false -> Phone_init p = Raise ValueError.
Proof. intros H. rewrite Phone_init_cases. unfold phone_ok in H. now rewrite H. Qed.

Lemma Phone_init_value p f : Phone_init p = Ok f -> f = mkField p.
Proof.
  rewrite Phone_init_cases. destruct (_ && _); [|discriminate].
  now intros [= <-].
Qed.

Lemma find_phone_loop_Some p v ps :
  Record_find_phone_loop p ps = Some v -> v = p /\ In (mkField p) ps.
Proof.
  induction ps as [|[q] ps IH]; simpl; [discriminate|].
  destruct (String.eqb_spec q p) as [->|Hne].
  - intros [= <-]. split; [reflexivity | now left].
  - intros H. destruct (IH H) as [-> Hin]. split; [reflexivity | now right].
Qed.

Lemma find_phone_loop_In p ps :
  In (mkField p) ps -> Record_find_phone_loop p ps = Some p.
Proof.
  induction ps as [|[q] ps IH]; simpl; [tauto|].
  destruct (String.eqb_spec q p) as [->|Hne]; [reflexivity|].
  intros [[= H]|H]; [contradiction | auto].
Qed.

Lemma find_phone_loop_None p ps :
  Record_find_phone_loop p ps = None <-> ~ In (mkField p) ps.
Proof.
  split.
  - intros H Hin. apply find_phone_loop_In in Hin. congruence.
  - intros H. destruct (Record_find_phone_loop p ps) as [v|] eqn:E;
      [|reflexivity].
    apply find_phone_loop_Some in E as [_ Hin]. contradiction.
Qed.

(** X1: [find_phone] returns the phone asked for exactly when an entry of
    the record holds it, and nothing otherwise. *)
Theorem Record_find_phone_spec (p : string) (self : record) :
  (forall v, Record_find_phone p self = Some v <->
             v = p /\ In (mkField p) (phones self)) /\
  (Record_find_phone p self = None <-> ~ In (mkField p) (phones self)).
Proof.
  unfold Record_find_phone. split; [|apply find_phone_loop_None].
  intros v. split; [apply find_phone_loop_Some|].
  intros [-> H]. now apply find_phone_loop_In.
Qed.

(** X2: [add_phone] with a phone that [Phone] takes puts it at the end of
    the list, also when it is stored already, and keeps name and
    birthday; [find_phone] then finds it, and finds what it found
    before. *)
Theorem Record_add_phone_then_find (p : string) (self : record) :
  phone_ok p = true ->
  exists self',
    Record_add_phone p self = Ok self' /\
    phones self' = (phones self ++ [mkField p])%list /\
    name self' = name self /\ birthday self' = birthday self /\
    Record_find_phone p self' = Some p /\
    (forall q, Record_find_phone q self = Some q ->
               Record_find_phone q self' = Some q).
Proof.
  intros Hp. unfold Record_add_phone. rewrite (Phone_init_ok _ Hp).
  eexists. split; [reflexivity|]. cbn.
  repeat split.
  - apply find_phone_loop_In, in_or_app. right. now left.
  - intros q Hq. apply find_phone_loop_Some in Hq as [_ Hin].
    apply find_phone_loop_In, in_or_app. now left.
Qed.

Lemma Record_add_phone_then_find_witness :
  exists self',
    Record_add_phone "0501234567" (Record_init "Oleh") = Ok self' /\
    Record_find_phone "0501234567" self' = Some "0501234567".
Proof.
  destruct (Record_add_phone_then_find "0501234567" (Record_init "Oleh")
              eq_refl) as (self' & H1 & _ & _ & _ & H2 & _).
  exists self'. split; assumption.
Defined.

Lemma edit_phone_loop_first old new l1 l2 :
  ~ In (mkField old) l1 ->
  edit_phone_loop old new (l1 ++ mkField old :: l2) =
  (l1 ++ mkField new :: l2)%list.
Proof.
  induction l1 as [|[q] l1 IH]; simpl.
  - intros _. now rewrite String.eqb_refl.
  - intros H. destruct (String.eqb_spec q old) as [->|Hne].
    + exfalso. apply H. now left.
    + rewrite IH; [reflexivity | tauto].
Qed.

Lemma edit_phone_loop_length old new ps :
  length (edit_phone_loop old new ps) = length ps.
Proof.
  induction ps as [|p ps IH]; simpl; [reflexivity|].
  destruct (value p =? old)%string; simpl; congruence.
Qed.

(** X3: [edit_phone] changes the first entry equal to the old phone and
    no other: the entries before and after it, later copies of the old
    phone among them, stay; so do name and birthday.  When no entry is
    equal to the old phone the record is as before. *)
Theorem Record_edit_phone_first (old new : string) (self : record) :
  (forall l1 l2,
     phones self = (l1 ++ mkField old :: l2)%list ->
     ~ In (mkField old) l1 ->
     Record_edit_phone old new self =
     mkRecord (name self) (l1 ++ mkField new :: l2) (birthday self)) /\
  (~ In (mkField old) (phones self) ->
   Record_edit_phone old new self = self).
Proof.
  destruct self as [n ps b]. unfold Record_edit_phone. cbn.
  split.
  - intros l1 l2 -> H. now rewrite edit_phone_loop_first.
  - intros H. now rewrite edit_phone_loop_absent.
Qed.

Lemma Record_edit_phone_first_witness :
  let self := mkRecord (Name_init "Oleh")
                [mkField "1"; mkField "2"; mkField "1"] None in
  Record_edit_phone "1" "3" self =
    mkRecord (Name_init "Oleh") [mkField "3"; mkField "2"; mkField "1"] None
  /\ Record_edit_phone "7" "3" self = self.
Proof.
  intros self. split.
  - apply (proj1 (Record_edit_phone_first "1" "3" self) [] [mkField "2"; mkField "1"]).
    + reflexivity.
    + simpl. tauto.
  - apply (proj2 (Record_edit_phone_first "7" "3" self)).
    simpl. intros [H|[H|[H|[]]]]; discriminate.
Defined.

Lemma filter_app_last {A} (f : A -> bool) l x :
  f x = false -> filter f (l ++ [x]) = filter f l.
Proof.
  intros H. rewrite filter_app. simpl. rewrite H. apply app_nil_r.
Qed.

(** X4: after [remove_phone] the phone is not found; removing twice is
    removing once; and adding a phone and removing it gives the record
    that removing it from the start gives, so the copies stored before go
    as well. *)
Theorem Record_remove_phone_then (p : string) (self : record) :
  Record_find_phone p (Record_remove_phone p self) = None /\
  Record_remove_phone p (Record_remove_phone p self) =
    Record_remove_phone p self /\
  (forall self', Record_add_phone p self = Ok self' ->
     Record_remove_phone p self' = Record_remove_phone p self).
Proof.
  split; [|split].
  - apply find_phone_loop_None. cbn. intros H.
    apply filter_In in H as [_ H]. cbn in H.
    now rewrite String.eqb_refl in H.
  - unfold Record_remove_phone. cbn. f_equal.
    induction (phones self) as [|q ps IH]; simpl; [reflexivity|].
    destruct (negb (value q =? p)%string) eqn:E; simpl; [|assumption].
    rewrite E. now f_equal.
  - intros self'. unfold Record_add_phone.
    destruct (Phone_init p) as [f|e] eqn:Hf; [|discriminate].
    apply Phone_init_value in Hf as ->. cbn. intros [= <-].
    unfold Record_remove_phone. cbn. f_equal.
    apply filter_app_last. cbn. now rewrite String.eqb_refl.
Qed.

Lemma Record_remove_phone_then_witness :
  Record_remove_phone "0501234567"
    (mkRecord (Name_init "Oleh")
       [mkField "0501234567"; mkField "0501234567"] None) =
  Record_remove_phone "0501234567"
    (mkRecord (Name_init "Oleh") [mkField "0501234567"] None).
Proof.
  apply (proj2 (proj2 (Record_remove_phone_then "0501234567"
           (mkRecord (Name_init "Oleh") [mkField "0501234567"] None)))).
  reflexivity.
Defined.

(** X5: [add_birthday] with a date that [Birthday] takes sets the birthday
    and keeps name and phones; a birthday set before is replaced, so that
    of two calls only the last one counts. *)
Theorem Record_add_birthday_last_wins (d1 d2 : string) (self s1 : record) :
  Record_add_birthday d1 self = Ok s1 ->
  (exists b, Birthday_init d1 = Ok b /\ birthday s1 = Some b) /\
  name s1 = name self /\ phones s1 = phones self /\
  Record_add_birthday d2 s1 = Record_add_birthday d2 self.
Proof.
  unfold Record_add_birthday.
  destruct (Birthday_init d1) as [b|e]; [|discriminate].
  cbn. intros [= <-]. cbn. repeat split. now exists b.
Qed.

Lemma Record_add_birthday_last_wins_witness :
  Record_add_birthday "02.03.1991"
    (mkRecord (Name_init "Oleh") []
       (Some (mkField (mkDatetime 1990 2 1 0 0 0 0)))) =
  Record_add_birthday "02.03.1991" (Record_init "Oleh").
Proof.
  apply (Record_add_birthday_last_wins "01.02.1990" "02.03.1991"
           (Record_init "Oleh")).
  reflexivity.
Defined.

(* ------------------------------------------------------------------ *)
(** ** More on AddressBook *)

Lemma dict_set_same {V : Type} k (v : V) d :
  dict_get k d = Some v -> dict_set k v d = d.
Proof.
  induction d as [|[k' v'] d IH]; simpl; [discriminate|].
  destruct (k' =? k)%string; [now intros [= ->]|].
  intros H. now rewrite IH.
Qed.

Lemma dict_del_set_absent {V : Type} k (v : V) d :
  dict_get k d = None -> dict_del k (dict_set k v d) = d.
Proof.
  induction d as [|[k' v'] d IH]; simpl.
  - now rewrite String.eqb_refl.
  - destruct (k' =? k)%string eqn:E; [discriminate|].
    intros H. simpl. rewrite E. now rewrite IH.
Qed.

Lemma dict_keys_set_absent {V : Type} k (v : V) d :
  dict_get k d = None -> dict_keys (dict_set k v d) = (dict_keys d ++ [k])%list.
Proof.
  intros H. rewrite (dict_set_absent _ _ _ H).
  unfold dict_keys. now rewrite map_app.
Qed.

Lemma dict_keys_set_Some {V : Type} k (v v0 : V) d :
  dict_get k d = Some v0 -> dict_keys (dict_set k v d) = dict_keys d.
Proof.
  intros H. apply dict_keys_set_present.
  destruct (in_dec string_dec k (dict_keys d)) as [Hin|Hout]; [assumption|].
  apply dict_get_None in Hout. congruence.
Qed.

(** X6: [find] after [add_record] returns the record added; every other
    name is found as before.  A new name goes to the end of the book; for
    a name the book has, the entry is replaced where it stands and the
    order of the names is unchanged. *)
Theorem AddressBook_add_record_find (r : record) (book : AddressBook) :
  let n := value (name r) in
  AddressBook_find n (AddressBook_add_record r book) = Some r /\
  (forall k, k <> n ->
     AddressBook_find k (AddressBook_add_record r book) =
     AddressBook_find k book) /\
  (AddressBook_find n book = None ->
     AddressBook_add_record r book = (book ++ [(n, r)])%list) /\
  (forall r0, AddressBook_find n book = Some r0 ->
     dict_keys (AddressBook_add_record r book) = dict_keys book).
Proof.
  unfold AddressBook_find, AddressBook_add_record. cbn zeta.
  split; [apply dict_get_set_eq|].
  split; [intros k Hk; apply dict_get_set_ne; congruence|].
  split; [apply dict_set_absent|].
  intros r0. apply dict_keys_set_Some.
Qed.

Lemma AddressBook_add_record_find_witness :
  let ira := mkRecord (Name_init "Ira") [] None in
  let ira' := mkRecord (Name_init "Ira") [mkField "0501234567"] None in
  let oleh := mkRecord (Name_init "Oleh") [] None in
  dict_keys (AddressBook_add_record ira' [("Ira", ira); ("Oleh", oleh)]) =
    ["Ira"; "Oleh"] /\
  AddressBook_add_record oleh [("Ira", ira)] = [("Ira", ira); ("Oleh", oleh)].
Proof.
  intros ira ira' oleh. split.
  - apply (proj2 (proj2 (proj2 (AddressBook_add_record_find ira'
             [("Ira", ira); ("Oleh", oleh)]))) ira). reflexivity.
  - apply (proj1 (proj2 (proj2 (AddressBook_add_record_find oleh
             [("Ira", ira)])))). reflexivity.
Defined.

(** X7: adding a record of a name the book does not have and deleting that
    name gives the book back. *)
Theorem AddressBook_delete_add_record (r : record) (book : AddressBook) :
  AddressBook_find (value (name r)) book = None ->
  AddressBook_delete (value (name r)) (AddressBook_add_record r book) = book.
Proof.
  intros H. unfold AddressBook_delete, AddressBook_add_record, dict_contains.
  rewrite dict_get_set_eq. now apply dict_del_set_absent.
Qed.

Lemma AddressBook_delete_add_record_witness :
  let ira := mkRecord (Name_init "Ira") [] None in
  let oleh := mkRecord (Name_init "Oleh") [mkField "0501234567"] None in
  AddressBook_delete "Oleh" (AddressBook_add_record oleh [("Ira", ira)]) =
  [("Ira", ira)].
Proof.
  intros ira oleh.
  apply (AddressBook_delete_add_record oleh [("Ira", ira)]). reflexivity.
Defined.

(* ------------------------------------------------------------------ *)
(** ** More on the commands *)

Lemma Birthday_init_raises x e : Birthday_init x = Raise e -> e = ValueError.
Proof.
  unfold Birthday_init. destruct (strptime_dmY x) as [dt|e0] eqn:H;
    [discriminate|].
  apply strptime_dmY_raises in H. subst e0. now intros [= <-].
Qed.

Lemma nonempty_phone_ok p : phone_ok p = true -> nonempty p = true.
Proof. destruct p; [discriminate | reflexivity]. Qed.

(** X8: [add] with a phone that [Phone] takes.  For a new name the answer
    is "added" and the book gets, at its end, a record of that name with
    this one phone; for a name of the book the answer is "updated" and the
    phone is appended to the phones of its record, which stays in its
    place.  [phone] for that name then shows the record with the phone
    last.  Arguments after the second are not read. *)
Theorem add_contact_valid (n phone : string) (rest : list string)
  (contacts : AddressBook) :
  phone_ok phone = true ->
  (AddressBook_find n contacts = None ->
   add_contact (n :: phone :: rest) contacts =
     (ContactAdded,
      (contacts ++ [(n, mkRecord (mkField n) [mkField phone] None)])%list) /\
   show_phone [n] (snd (add_contact (n :: phone :: rest) contacts)) =
     Shown (RecordText n [phone] None)) /\
  (forall r, AddressBook_find n contacts = Some r ->
   add_contact (n :: phone :: rest) contacts =
     (ContactUpdated,
      dict_set n (mkRecord (name r) (phones r ++ [mkField phone])
                    (birthday r)) contacts) /\
   show_phone [n] (snd (add_contact (n :: phone :: rest) contacts)) =
     Shown (RecordText (value (name r)) (map value (phones r) ++ [phone])
              (birthday r)) /\
   dict_keys (snd (add_contact (n :: phone :: rest) contacts)) =
     dict_keys contacts).
Proof.
  intros Hp. pose proof (nonempty_phone_ok _ Hp) as Hne.
  unfold AddressBook_find. split.
  - intros Hfind.
    assert (Hrun : add_contact (n :: phone :: rest) contacts =
      (ContactAdded,
       (contacts ++ [(n, mkRecord (mkField n) [mkField phone] None)])%list)).
    { unfold add_contact, AddressBook_find. rewrite Hfind, Hne.
      unfold Record_add_phone. rewrite (Phone_init_ok _ Hp). cbn.
      unfold AddressBook_add_record. cbn.
      rewrite dict_set_set. now rewrite (dict_set_absent _ _ _ Hfind). }
    split; [assumption|]. rewrite Hrun. cbn [snd].
    unfold show_phone, AddressBook_find.
    rewrite <- (dict_set_absent _ _ _ Hfind), dict_get_set_eq. reflexivity.
  - intros r Hfind.
    assert (Hrun : add_contact (n :: phone :: rest) contacts =
      (ContactUpdated,
       dict_set n (mkRecord (name r) (phones r ++ [mkField phone])
                     (birthday r)) contacts)).
    { unfold add_contact, AddressBook_find. rewrite Hfind, Hne.
      unfold Record_add_phone. rewrite (Phone_init_ok _ Hp). reflexivity. }
    split; [assumption|]. rewrite Hrun. cbn [snd]. split.
    + unfold show_phone, AddressBook_find. rewrite dict_get_set_eq.
      unfold Record_str. cbn. now rewrite map_app.
    + now apply dict_keys_set_Some with (v0 := r).
Qed.

Lemma add_contact_valid_witness :
  add_contact ["Oleh"; "0501234567"] [] =
    (ContactAdded,
     [("Oleh", mkRecord (mkField "Oleh") [mkField "0501234567"] None)]) /\
  show_phone ["Oleh"]
    (snd (add_contact ["Oleh"; "0507654321"]
            [("Oleh",
              mkRecord (mkField "Oleh") [mkField "0501234567"] None)])) =
    Shown (RecordText "Oleh" ["0501234567"; "0507654321"] None).
Proof.
  split.
  - apply (proj1 (add_contact_valid "Oleh" "0501234567" [] [] eq_refl)).
    reflexivity.
  - apply (proj2 (add_contact_valid "Oleh" "0507654321" []
             [("Oleh", mkRecord (mkField "Oleh") [mkField "0501234567"] None)]
             eq_refl)
             (mkRecord (mkField "Oleh") [mkField "0501234567"] None)).
    reflexivity.
Defined.

(** X9: the cases in which [add] leaves the book as it is: fewer than two
    arguments (the answer is the text for [ValueError]); a name of the
    book with a non-empty phone that [Phone] refuses (the same text); a
    name of the book with the empty phone, where the answer still is
    "updated". *)
Theorem add_contact_unchanged (contacts : AddressBook) :
  (forall args, (length args < 2)%nat ->
     add_contact args contacts = (GiveNameAndPhone, contacts)) /\
  (forall n phone rest r,
     AddressBook_find n contacts = Some r ->
     phone <> "" -> phone_ok phone = false ->
     add_contact (n :: phone :: rest) contacts =
       (GiveNameAndPhone, contacts)) /\
  (forall n rest r,
     AddressBook_find n contacts = Some r ->
     add_contact (n :: "" :: rest) contacts = (ContactUpdated, contacts)).
Proof.
  split; [|split].
  - intros [|n [|phone rest]] H; simpl in H; try lia; reflexivity.
  - intros n phone rest r Hfind Hne Hbad.
    unfold add_contact. rewrite Hfind.
    destruct phone as [|c phone]; [congruence|]. cbn [nonempty].
    unfold Record_add_phone. now rewrite (Phone_init_bad _ Hbad).
  - intros n rest r Hfind. unfold add_contact. now rewrite Hfind.
Qed.

Lemma add_contact_unchanged_witness :
  let book := [("Oleh", mkRecord (mkField "Oleh") [] None)] in
  add_contact ["Oleh"] book = (GiveNameAndPhone, book) /\
  add_contact ["Oleh"; "12345"] book = (GiveNameAndPhone, book) /\
  add_contact ["Oleh"; ""] book = (ContactUpdated, book).
Proof.
  intros book.
  destruct (add_contact_unchanged book) as (H1 & H2 & H3).
  split; [|split].
  - apply H1. simpl. lia.
  - apply (H2 "Oleh" "12345" [] (mkRecord (mkField "Oleh") [] None)).
    + reflexivity.
    + discriminate.
    + reflexivity.
  - apply (H3 "Oleh" [] (mkRecord (mkField "Oleh") [] None)). reflexivity.
Defined.

(** X10: the cases in which [change] leaves the book as it is: another
    number of arguments than three (the text for [ValueError]); a name the
    book does not have (the answer names it); and a name of the book whose
    record does not hold the old phone, where the answer still is
    "changed". *)
Theorem change_contact_unchanged (contacts : AddressBook) :
  (forall args, length args <> 3%nat ->
     change_contact args contacts = (GiveNameAndPhone, contacts)) /\
  (forall n old new,
     AddressBook_find n contacts = None ->
     change_contact [n; old; new] contacts = (NameNotFound n, contacts)) /\
  (forall n old new r,
     AddressBook_find n contacts = Some r ->
     ~ In (mkField old) (phones r) ->
     change_contact [n; old; new] contacts = (ContactChanged, contacts)).
Proof.
  split; [|split].
  - intros [|n [|old [|new [|x args]]]] H; simpl in H;
      try reflexivity; congruence.
  - intros n old new Hfind. unfold change_contact. now rewrite Hfind.
  - intros n old new r Hfind Hout. unfold change_contact. rewrite Hfind.
    cbn. f_equal. apply dict_set_same.
    unfold AddressBook_find in Hfind. rewrite Hfind. f_equal.
    destruct r as [nm ps b]. unfold Record_edit_phone. cbn in *.
    now rewrite edit_phone_loop_absent.
Qed.

Lemma change_contact_unchanged_witness :
  let book := [("Oleh", mkRecord (mkField "Oleh") [mkField "0501234567"] None)] in
  change_contact ["Oleh"; "1"] book = (GiveNameAndPhone, book) /\
  change_contact ["Ira"; "1"; "2"] book = (NameNotFound "Ira", book) /\
  change_contact ["Oleh"; "1"; "2"] book = (ContactChanged, book).
Proof.
  intros book.
  destruct (change_contact_unchanged book) as (H1 & H2 & H3).
  split; [|split].
  - apply H1. discriminate.
  - apply H2. reflexivity.
  - apply (H3 "Oleh" "1" "2"
             (mkRecord (mkField "Oleh") [mkField "0501234567"] None)).
    + reflexivity.
    + simpl. intros [H|[]]. discriminate.
Defined.

(** X11: [change] for a name of the book whose record holds the old phone:
    the answer is "changed"; in that record the first entry equal to the
    old phone now has the new value, as it is, and nothing else differs;
    the names of the book and the records of the other names are as
    before; [phone] for that name shows the new value in the place of the
    old one. *)
Theorem change_contact_effect (contacts : AddressBook)
  (n old new : string) (r : record) (l1 l2 : list Phone) :
  AddressBook_find n contacts = Some r ->
  phones r = (l1 ++ mkField old :: l2)%list ->
  ~ In (mkField old) l1 ->
  let r' := mkRecord (name r) (l1 ++ mkField new :: l2) (birthday r) in
  let contacts' := snd (change_contact [n; old; new] contacts) in
  change_contact [n; old; new] contacts =
    (ContactChanged, dict_set n r' contacts) /\
  AddressBook_find n contacts' = Some r' /\
  (forall k, k <> n ->
     AddressBook_find k contacts' = AddressBook_find k contacts) /\
  dict_keys contacts' = dict_keys contacts /\
  show_phone [n] contacts' =
    Shown (RecordText (value (name r))
             (map value l1 ++ new :: map value l2) (birthday r)).
Proof.
  intros Hfind Hps Hout r' contacts'.
  assert (Hrun : change_contact [n; old; new] contacts =
                 (ContactChanged, dict_set n r' contacts)).
  { unfold change_contact. rewrite Hfind. cbn. do 2 f_equal.
    unfold Record_edit_phone. rewrite Hps.
    now rewrite edit_phone_loop_first. }
  subst contacts'. rewrite Hrun. cbn [snd]. unfold AddressBook_find in *.
  split; [reflexivity|].
  split; [apply dict_get_set_eq|].
  split; [intros k Hk; apply dict_get_set_ne; congruence|].
  split; [now apply dict_keys_set_Some with (v0 := r)|].
  unfold show_phone, AddressBook_find. rewrite dict_get_set_eq.
  unfold Record_str, r'. cbn. now rewrite map_app.
Qed.

Lemma change_contact_effect_witness :
  show_phone ["Oleh"]
    (snd (change_contact ["Oleh"; "0501234567"; "0509999999"]
            [("Oleh",
              mkRecord (mkField "Oleh")
                [mkField "0501234567"; mkField "0507654321"] None)])) =
  Shown (RecordText "Oleh" ["0509999999"; "0507654321"] None).
Proof.
  apply (change_contact_effect
           [("Oleh",
             mkRecord (mkField "Oleh")
               [mkField "0501234567"; mkField "0507654321"] None)]
           "Oleh" "0501234567" "0509999999"
           (mkRecord (mkField "Oleh")
              [mkField "0501234567"; mkField "0507654321"] None)
           [] [mkField "0507654321"]).
  - reflexivity.
  - reflexivity.
  - simpl. tauto.
Defined.

(** X12: [add-birthday].  For a name the book does not have the answer
    names it and the book is as before; for a name of the book and a date
    that [Birthday] refuses the answer is the text for [ValueError], the
    one that asks for a name and a phone number, and the book is as before;
    for a date that [Birthday] takes the answer is "birthday added", the
    record keeps its place, name and phones, and [show-birthday] for that
    name then shows this birthday. *)
Theorem add_birthday_cases (contacts : AddressBook) (n date : string)
  (rest : list string) :
  (AddressBook_find n contacts = None ->
   add_birthday (n :: date :: rest) contacts = (NoSuchContact n, contacts)) /\
  (forall r e,
     AddressBook_find n contacts = Some r ->
     Birthday_init date = Raise e ->
     add_birthday (n :: date :: rest) contacts =
       (GiveNameAndPhone, contacts)) /\
  (forall r b,
     AddressBook_find n contacts = Some r ->
     Birthday_init date = Ok b ->
     add_birthday (n :: date :: rest) contacts =
       (BirthdayAdded,
        dict_set n (mkRecord (name r) (phones r) (Some b)) contacts) /\
     show_birthday [n] (snd (add_birthday (n :: date :: rest) contacts)) =
       BirthdayOf n b /\
     dict_keys (snd (add_birthday (n :: date :: rest) contacts)) =
       dict_keys contacts).
Proof.
  split; [|split].
  - intros Hfind. unfold add_birthday. now rewrite Hfind.
  - intros r e Hfind Hbad. unfold add_birthday. rewrite Hfind.
    unfold Record_add_birthday. rewrite Hbad. cbn.
    apply Birthday_init_raises in Hbad. now subst e.
  - intros r b Hfind Hok.
    assert (Hrun : add_birthday (n :: date :: rest) contacts =
      (BirthdayAdded,
       dict_set n (mkRecord (name r) (phones r) (Some b)) contacts)).
    { unfold add_birthday. rewrite Hfind.
      unfold Record_add_birthday. now rewrite Hok. }
    split; [assumption|]. rewrite Hrun. cbn [snd]. split.
    + unfold show_birthday, AddressBook_find. now rewrite dict_get_set_eq.
    + now apply dict_keys_set_Some with (v0 := r).
Qed.

Lemma add_birthday_cases_witness :
  let book := [("Oleh", mkRecord (mkField "Oleh") [] None)] in
  add_birthday ["Ira"; "01.02.1990"] book = (NoSuchContact "Ira", book) /\
  add_birthday ["Oleh"; "31.02.1990"] book = (GiveNameAndPhone, book) /\
  show_birthday ["Oleh"] (snd (add_birthday ["Oleh"; "01.02.1990"] book)) =
    BirthdayOf "Oleh" (mkField (mkDatetime 1990 2 1 0 0 0 0)).
Proof.
  intros book. split; [|split].
  - apply (proj1 (add_birthday_cases book "Ira" "01.02.1990" [])).
    reflexivity.
  - apply (proj1 (proj2 (add_birthday_cases book "Oleh" "31.02.1990" []))
             (mkRecord (mkField "Oleh") [] None) ValueError); reflexivity.
  - apply (proj2 (proj2 (add_birthday_cases book "Oleh" "01.02.1990" []))
             (mkRecord (mkField "Oleh") [] None)
             (mkField (mkDatetime 1990 2 1 0 0 0 0))); reflexivity.
Defined.

(* ------------------------------------------------------------------ *)
(** ** Reading a command line *)

Lemma append_assoc (a b c : string) : (a ++ b) ++ c = a ++ (b ++ c).
Proof. induction a as [|x a IH]; simpl; congruence. Qed.

Lemma append_nil_r (a : string) : a ++ "" = a.
Proof. induction a as [|x a IH]; simpl; congruence. Qed.

Lemma split_from_blank ws rest :
  blank ws = true -> split_from None (ws ++ rest) = split_from None rest.
Proof.
  induction ws as [|c ws IH]; simpl; [reflexivity|].
  intros H. apply andb_true_iff in H as [Hc Hws]. rewrite Hc. auto.
Qed.

Lemma split_from_word_more w tok rest :
  all_chars (fun c => negb (isspace c)) tok = true ->
  split_from (Some w) (tok ++ rest) = split_from (Some (w ++ tok)) rest.
Proof.
  revert w. induction tok as [|c tok IH]; intros w; simpl.
  - now rewrite append_nil_r.
  - intros H. apply andb_true_iff in H as [Hc Htok].
    apply negb_true_iff in Hc. rewrite Hc, IH by assumption.
    now rewrite append_assoc.
Qed.

Lemma split_from_word tok rest :
  is_word tok = true ->
  split_from None (tok ++ rest) = split_from (Some tok) rest.
Proof.
  unfold is_word. destruct tok as [|c tok]; [discriminate|].
  cbn [nonempty andb all_chars]. intros H.
  apply andb_true_iff in H as [Hc Htok]. apply negb_true_iff in Hc.
  cbn [append split_from]. rewrite Hc.
  now rewrite split_from_word_more.
Qed.

Lemma split_from_gap w ws rest :
  blank ws = true -> ws <> "" ->
  split_from (Some w) (ws ++ rest) = w :: split_from None rest.
Proof.
  destruct ws as [|c ws]; [congruence|]. cbn [blank all_chars].
  intros H _. apply andb_true_iff in H as [Hc Hws].
  cbn [append split_from]. rewrite Hc. f_equal.
  now apply split_from_blank.
Qed.

Lemma split_from_end w trail :
  blank trail = true -> split_from (Some w) trail = [w].
Proof.
  destruct trail as [|c trail]; [reflexivity|]. cbn [blank all_chars].
  intros H. apply andb_true_iff in H as [Hc Hws].
  cbn [split_from]. rewrite Hc. f_equal.
  rewrite <- (append_nil_r trail). now rewrite split_from_blank.
Qed.

Lemma split_spaced items rest :
  Forall gap_ok items ->
  split_from None (spaced items ++ rest) =
  (map fst items ++ split_from None rest)%list.
Proof.
  induction 1 as [|[w ws] items (Hw & Hws & Hne) _ IH]; [reflexivity|].
  cbn [spaced map fst app]. cbn [fst snd] in *.
  rewrite !append_assoc, split_from_word by assumption.
  rewrite split_from_gap by assumption. now rewrite IH.
Qed.

Lemma split_blank s : blank s = true -> split s = [].
Proof.
  intros H. unfold split. rewrite <- (append_nil_r s).
  now rewrite split_from_blank.
Qed.

Lemma split_line lead items last trail :
  blank lead = true -> Forall gap_ok items ->
  is_word last = true -> blank trail = true ->
  split (lead ++ spaced items ++ last ++ trail) =
  (map fst items ++ [last])%list.
Proof.
  intros Hlead Hitems Hlast Htrail. unfold split.
  rewrite split_from_blank by assumption.
  rewrite split_spaced by assumption.
  rewrite split_from_word by assumption.
  now rewrite split_from_end.
Qed.

Lemma lstrip_word w : is_word w = true -> lstrip w = w.
Proof.
  unfold is_word. destruct w as [|c w]; [discriminate|].
  cbn [nonempty andb all_chars lstrip]. intros H.
  apply andb_true_iff in H as [Hc _]. apply negb_true_iff in Hc.
  now rewrite Hc.
Qed.

Lemma rstrip_word w :
  all_chars (fun c => negb (isspace c)) w = true -> rstrip w = w.
Proof.
  induction w as [|c w IH]; [reflexivity|]. cbn [all_chars rstrip].
  intros H. apply andb_true_iff in H as [Hc Hw].
  apply negb_true_iff in Hc. rewrite (IH Hw), Hc. now destruct w.
Qed.

Lemma strip_word w : is_word w = true -> strip w = w.
Proof.
  intros H. unfold strip. rewrite (lstrip_word _ H).
  apply rstrip_word. unfold is_word in H.
  now apply andb_true_iff in H as [_ H].
Qed.

(** X13: [parse_input] reads a line as its words, whatever whitespace
    stands before, between and after them; the command is the first word
    in lower case and the arguments are the other words as they are.  A
    line without a word gives no pair but the decorator's text for
    [ValueError]. *)
Theorem parse_input_spec :
  (forall lead items last trail,
     blank lead = true -> Forall gap_ok items ->
     is_word last = true -> blank trail = true ->
     parse_input (lead ++ spaced items ++ last ++ trail) =
     match (map fst items ++ [last])%list with
     | cmd :: args => Command (lower cmd) args
     | [] => Message GiveNameAndPhone
     end) /\
  (forall line, blank line = true ->
     parse_input line = Message GiveNameAndPhone).
Proof.
  split.
  - intros lead items last trail Hlead Hitems Hlast Htrail.
    unfold parse_input. rewrite split_line by assumption.
    destruct Hitems as [|[w ws] items (Hw & _) _]; cbn [map app fst].
    + now rewrite strip_word.
    + cbn [fst] in Hw. now rewrite strip_word.
  - intros line H. unfold parse_input. now rewrite split_blank.
Qed.

Lemma parse_input_spec_witness :
  parse_input "  ADD   Oleh 0501234567 " =
    Command "add" ["Oleh"; "0501234567"] /\
  parse_input "   " = Message GiveNameAndPhone.
Proof.
  split.
  - apply (proj1 parse_input_spec "  " [("ADD", "   "); ("Oleh", " ")]
             "0501234567" " "); try reflexivity.
    repeat constructor; discriminate.
  - apply (proj2 parse_input_spec). reflexivity.
Defined.

(* ------------------------------------------------------------------ *)
(** ** The command loop *)

Lemma main_loop_app pre more contacts out :
  status_of (main_loop pre contacts out) = Running ->
  main_loop (pre ++ more) contacts out =
  main_loop more (book_of (main_loop pre contacts out))
    (printed_of (main_loop pre contacts out)).
Proof.
  revert contacts out.
  induction pre as [|[today line] pre IH]; intros contacts out;
    [reflexivity|].
  cbn [app main_loop].
  destruct (main_turn today line contacts) as [p c'|saved|e];
    cbn [status_of]; [apply IH | discriminate | discriminate].
Qed.

Lemma main_loop_stopped pre more contacts out :
  status_of (main_loop pre contacts out) <> Running ->
  main_loop (pre ++ more) contacts out = main_loop pre contacts out.
Proof.
  revert contacts out.
  induction pre as [|[today line] pre IH]; intros contacts out.
  - cbn. congruence.
  - cbn [app main_loop].
    destruct (main_turn today line contacts) as [p c'|saved|e];
      [apply IH | reflexivity | reflexivity].
Qed.

Lemma main_turn_blank today line contacts :
  blank line = true -> main_turn today line contacts = Crash ValueError.
Proof.
  intros H. unfold main_turn, parse_input. now rewrite split_blank.
Qed.

(** X14: a line without a word ends the program.  [parse_input] hands
    [main] a text where it wants a pair, the unpacking raises [ValueError]
    and nothing catches it: whatever was typed before, the program stops
    there, prints nothing more, has saved nothing, and the lines after it
    are not read. *)
Theorem main_blank_line_crashes (loaded : AddressBook)
  (pre rest : list (datetime * string)) (today : datetime) (line : string) :
  status_of (main loaded pre) = Running ->
  blank line = true ->
  let s := main loaded (pre ++ (today, line) :: rest) in
  status_of s = Crashed ValueError /\
  saved_of s = None /\
  book_of s = book_of (main loaded pre) /\
  printed_of s = printed_of (main loaded pre).
Proof.
  intros Hrun Hblank s. subst s. unfold main in *.
  rewrite (main_loop_app _ _ _ _ Hrun). cbn [main_loop].
  rewrite (main_turn_blank _ _ _ Hblank). repeat split.
Qed.

Lemma main_blank_line_crashes_witness :
  let t := mkDatetime 2024 1 1 9 0 0 0 in
  let s := main [] [(t, "add Oleh 0501234567"); (t, ""); (t, "close")] in
  status_of s = Crashed ValueError /\ saved_of s = None.
Proof.
  intros t s.
  destruct (main_blank_line_crashes [] [(t, "add Oleh 0501234567")]
              [(t, "close")] t "" eq_refl eq_refl) as (H1 & H2 & _).
  split; assumption.
Defined.

Lemma main_loop_saved inputs contacts out :
  let s := main_loop inputs contacts out in
  match status_of s with
  | Exited => saved_of s = Some (book_of s)
  | _ => saved_of s = None
  end.
Proof.
  revert contacts out.
  induction inputs as [|[today line] inputs IH]; intros contacts out;
    [reflexivity|].
  cbn [main_loop].
  destruct (main_turn today line contacts) as [p c'|saved|e] eqn:Hturn;
    [apply IH | | reflexivity].
  cbn. f_equal. unfold main_turn in Hturn.
  destruct (parse_input line) as [cmd args|]; [|discriminate].
  repeat match type of Hturn with
         | (if ?b then _ else _) = _ => destruct b
         end;
    try discriminate; now injection Hturn.
Qed.

(** A turn that stops was given [close] or [exit], and hands [save_data]
    the book as it is. *)
Lemma main_turn_Stop today line contacts saved :
  main_turn today line contacts = Stop saved ->
  saved = contacts /\
  exists args,
    parse_input line = Command "close" args \/
    parse_input line = Command "exit" args.
Proof.
  unfold main_turn, after_handler.
  destruct (parse_input line) as [cmd args|]; [|discriminate].
  destruct (String.eqb_spec cmd "close") as [->|_].
  { cbn [orb]. intros [= <-]. split; [reflexivity|]. exists args. now left. }
  destruct (String.eqb_spec cmd "exit") as [->|_].
  { cbn [orb]. intros [= <-]. split; [reflexivity|]. exists args. now right. }
  cbn [orb]. intros Hturn.
  repeat match type of Hturn with
         | (if ?b then _ else _) = _ => destruct b
         end; discriminate.
Qed.

(** A run that has exited read a [close] or [exit] line, while it was
    running, and stopped there. *)
Lemma main_loop_Exited inputs contacts out :
  status_of (main_loop inputs contacts out) = Exited ->
  exists pre today line args rest,
    inputs = (pre ++ (today, line) :: rest)%list /\
    status_of (main_loop pre contacts out) = Running /\
    book_of (main_loop pre contacts out) =
      book_of (main_loop inputs contacts out) /\
    (parse_input line = Command "close" args \/
     parse_input line = Command "exit" args).
Proof.
  revert contacts out.
  induction inputs as [|[today line] inputs IH]; intros contacts out;
    [discriminate|].
  cbn [main_loop].
  destruct (main_turn today line contacts) as [p c'|saved|e] eqn:Hturn.
  - intros H.
    destruct (IH _ _ H) as (pre & t & l & args & rest & -> & Hrun & Hbook & Hc).
    exists ((today, line) :: pre), t, l, args, rest.
    cbn [app main_loop]. rewrite Hturn. auto.
  - intros _. destruct (main_turn_Stop _ _ _ _ Hturn) as [_ [args Hc]].
    exists [], today, line, args, inputs. cbn. auto.
  - discriminate.
Qed.

(** X15: the book is saved by [close] and [exit] only.  A run has exited
    exactly when it has saved, and then one of its lines, read while the
    program was running, had [close] or [exit] as its first word; what was
    saved is the book as the lines before that one left it, whatever
    follows the word on the line.  A run that has not exited has saved
    nothing.  Once the program has ended, by these commands or by an
    exception, further lines change nothing. *)
Theorem main_saves_on_exit (loaded : AddressBook)
  (inputs : list (datetime * string)) :
  let s := main loaded inputs in
  (status_of s = Exited -> saved_of s = Some (book_of s)) /\
  (status_of s <> Exited -> saved_of s = None) /\
  (status_of s = Exited ->
   exists pre today line args rest,
     inputs = (pre ++ (today, line) :: rest)%list /\
     status_of (main loaded pre) = Running /\
     book_of (main loaded pre) = book_of s /\
     (parse_input line = Command "close" args \/
      parse_input line = Command "exit" args)) /\
  (status_of s <> Running ->
   forall more, main loaded (inputs ++ more) = s) /\
  (forall today line args,
     status_of s = Running ->
     parse_input line = Command "close" args \/
     parse_input line = Command "exit" args ->
     let s' := main loaded (inputs ++ [(today, line)]) in
     status_of s' = Exited /\ saved_of s' = Some (book_of s) /\
     book_of s' = book_of s).
Proof.
  intros s. subst s. unfold main.
  pose proof (main_loop_saved inputs loaded [Banner]) as Hs. cbn zeta in Hs.
  split; [|split; [|split; [|split]]].
  - intros H. now rewrite H in Hs.
  - intros H. destruct (status_of _); [assumption | congruence | assumption].
  - apply main_loop_Exited.
  - intros H more. now apply main_loop_stopped.
  - intros today line args Hrun Hcmd.
    rewrite (main_loop_app _ _ _ _ Hrun). cbn [main_loop].
    unfold main_turn. destruct Hcmd as [-> | ->]; cbn; repeat split.
Qed.

Lemma main_saves_on_exit_witness :
  let t := mkDatetime 2024 1 1 9 0 0 0 in
  let s := main [] [(t, "add Oleh 0501234567"); (t, "EXIT now")] in
  status_of s = Exited /\
  saved_of s =
    Some [("Oleh", mkRecord (mkField "Oleh") [mkField "0501234567"] None)] /\
  (exists pre today line args rest,
     [(t, "add Oleh 0501234567"); (t, "EXIT now")] =
       (pre ++ (today, line) :: rest)%list /\
     status_of (main [] pre) = Running /\
     book_of (main [] pre) = book_of s /\
     (parse_input line = Command "close" args \/
      parse_input line = Command "exit" args)).
Proof.
  intros t s.
  destruct (proj2 (proj2 (proj2 (proj2 (main_saves_on_exit []
              [(t, "add Oleh 0501234567")])))) t "EXIT now" ["now"]
              eq_refl (or_intror eq_refl)) as (H1 & H2 & _).
  split; [exact H1|]. split; [exact H2|].
  apply (proj1 (proj2 (proj2 (main_saves_on_exit []
           [(t, "add Oleh 0501234567"); (t, "EXIT now")])))).
  exact H1.
Defined.

(** X16: only [add], [change] and [add-birthday] can change the book, and
    only [close] and [exit] end the loop.  The turn of a line with a first
    word stops exactly when that word is [close] or [exit], and it then
    hands over the book as it is; for [add], [change] and [add-birthday]
    it goes on with the answer and the book of the handler; for every
    other first word, known or not, it goes on with the book as it was,
    and a word that is no command gets the text for an invalid command. *)
Theorem main_turn_reads_only (today : datetime) (line cmd : string)
  (args : list string) (contacts : AddressBook) :
  parse_input line = Command cmd args ->
  (In cmd ["close"; "exit"] ->
   main_turn today line contacts = Stop contacts) /\
  (forall saved,
     main_turn today line contacts = Stop saved ->
     In cmd ["close"; "exit"] /\ saved = contacts) /\
  (cmd = "add" ->
   main_turn today line contacts =
   Continue (Said (fst (add_contact args contacts)))
     (snd (add_contact args contacts))) /\
  (cmd = "change" ->
   main_turn today line contacts =
   Continue (Said (fst (change_contact args contacts)))
     (snd (change_contact args contacts))) /\
  (cmd = "add-birthday" ->
   main_turn today line contacts =
   Continue (Said (fst (add_birthday args contacts)))
     (snd (add_birthday args contacts))) /\
  (~ In cmd ["close"; "exit"; "add"; "change"; "add-birthday"] ->
   exists p, main_turn today line contacts = Continue p contacts) /\
  (~ In cmd ["close"; "exit"; "add"; "change"; "add-birthday";
             "hello"; "phone"; "all"; "show-birthday"; "birthdays"] ->
   main_turn today line contacts = Continue InvalidCommandText contacts).
Proof.
  intros Hparse.
  split; [|split; [|split; [|split; [|split; [|split]]]]].
  - unfold main_turn. rewrite Hparse.
    intros [<-|[<-|[]]]; reflexivity.
  - intros saved Hturn.
    destruct (main_turn_Stop _ _ _ _ Hturn) as [-> [args' Hc]].
    split; [|reflexivity]. rewrite Hparse in Hc. cbn [In].
    destruct Hc as [[= -> _]|[= -> _]]; auto.
  - intros ->. unfold main_turn. now rewrite Hparse.
  - intros ->. unfold main_turn. now rewrite Hparse.
  - intros ->. unfold main_turn. now rewrite Hparse.
  - intros Hout. unfold main_turn. rewrite Hparse. cbn [In] in Hout.
    destruct (String.eqb_spec cmd "close");
      [exfalso; subst cmd; apply Hout; auto 10|].
    destruct (String.eqb_spec cmd "exit");
      [exfalso; subst cmd; apply Hout; auto 10|].
    cbn [orb].
    destruct (String.eqb_spec cmd "hello"); [eexists; reflexivity|].
    destruct (String.eqb_spec cmd "add");
      [exfalso; subst cmd; apply Hout; auto 10|].
    destruct (String.eqb_spec cmd "change");
      [exfalso; subst cmd; apply Hout; auto 10|].
    destruct (String.eqb_spec cmd "phone"); [eexists; reflexivity|].
    destruct (String.eqb_spec cmd "all"); [eexists; reflexivity|].
    destruct (String.eqb_spec cmd "add-birthday");
      [exfalso; subst cmd; apply Hout; auto 10|].
    destruct (String.eqb_spec cmd "show-birthday"); [eexists; reflexivity|].
    destruct (String.eqb_spec cmd "birthdays"); eexists; reflexivity.
  - intros Hout. unfold main_turn. rewrite Hparse. cbn [In] in Hout.
    repeat match goal with
           | |- context [(cmd =? ?w)%string] =>
               destruct (String.eqb_spec cmd w);
               [exfalso; subst cmd; apply Hout; auto 15|]
           end.
    reflexivity.
Qed.

Lemma main_turn_reads_only_witness :
  let t := mkDatetime 2024 1 1 9 0 0 0 in
  let book := [("Oleh", mkRecord (mkField "Oleh") [] None)] in
  main_turn t "delete Oleh" book = Continue InvalidCommandText book /\
  main_turn t "Close" book = Stop book /\
  main_turn t "add-birthday Oleh 01.02.1990" book =
    Continue (Said BirthdayAdded)
      [("Oleh", mkRecord (mkField "Oleh") []
                  (Some (mkField (mkDatetime 1990 2 1 0 0 0 0))))].
Proof.
  intros t book. split; [|split].
  - apply (main_turn_reads_only t "delete Oleh" "delete" ["Oleh"] book).
    + reflexivity.
    + cbn [In]. intros H.
      repeat destruct H as [H|H]; discriminate || assumption.
  - apply (main_turn_reads_only t "Close" "close" [] book).
    + reflexivity.
    + now left.
  - apply (main_turn_reads_only t "add-birthday Oleh 01.02.1990"
             "add-birthday" ["Oleh"; "01.02.1990"] book); reflexivity.
Defined.

Lemma dict_set_Forall {V : Type} (P : string * V -> Prop) k v d :
  Forall P d -> P (k, v) -> Forall P (dict_set k v d).
Proof.
  intros Hd Hkv. induction Hd as [|[k' v'] d Hx Hd IH]; simpl.
  - now constructor.
  - destruct (String.eqb_spec k' k) as [->|Hne]; constructor; assumption.
Qed.

Lemma dict_get_Forall {V : Type} (P : string * V -> Prop) k v d :
  Forall P d -> dict_get k d = Some v -> P (k, v).
Proof.
  intros Hd. induction Hd as [|[k' v'] d Hx Hd IH]; simpl; [discriminate|].
  destruct (String.eqb_spec k' k) as [->|Hne]; [now intros [= <-] | assumption].
Qed.

Lemma grows_refl book : grows book book.
Proof. exists []. now rewrite app_nil_r. Qed.

Lemma grows_trans b1 b2 b3 : grows b1 b2 -> grows b2 b3 -> grows b1 b3.
Proof.
  intros [m1 H1] [m2 H2]. exists (m1 ++ m2)%list.
  now rewrite H2, H1, app_assoc.
Qed.

Lemma grows_set k (r : record) book : grows book (dict_set k r book).
Proof.
  destruct (dict_get k book) as [r0|] eqn:H.
  - exists []. rewrite app_nil_r. now apply dict_keys_set_Some with (v0 := r0).
  - exists [k]. now apply dict_keys_set_absent.
Qed.

Lemma book_inv_set n r book :
  book_inv book ->
  value (name r) = n ->
  (forall b, birthday r = Some b -> birthday_ok b) ->
  book_inv (dict_set n r book).
Proof.
  intros (Hu & Hk & Hb) Hn Hr. split; [|split].
  - now apply dict_set_unique.
  - now apply dict_set_Forall.
  - now apply dict_set_Forall.
Qed.

Lemma book_inv_get n r book :
  book_inv book -> dict_get n book = Some r ->
  value (name r) = n /\ (forall b, birthday r = Some b -> birthday_ok b).
Proof.
  intros (_ & Hk & Hb) Hget. split.
  - apply (dict_get_Forall _ _ _ _ Hk Hget).
  - apply (dict_get_Forall _ _ _ _ Hb Hget).
Qed.

Lemma Birthday_init_birthday_ok date b :
  Birthday_init date = Ok b -> birthday_ok b.
Proof.
  intros H. apply Birthday_init_Ok, strptime_dmY_inv in H
    as (y & m & d & ds & ms & Hreal & _ & _ & _ & Hv).
  now exists y, m, d.
Qed.

Lemma add_contact_inv args contacts :
  book_inv contacts ->
  book_inv (snd (add_contact args contacts)) /\
  grows contacts (snd (add_contact args contacts)).
Proof.
  intros Hinv. unfold add_contact.
  destruct args as [|n [|phone rest]];
    try (split; [assumption | apply grows_refl]).
  unfold AddressBook_find, AddressBook_add_record.
  destruct (dict_get n contacts) as [r|] eqn:Hget.
  - destruct (book_inv_get _ _ _ Hinv Hget) as [Hn Hb].
    destruct (nonempty phone); [|split; [assumption | apply grows_refl]].
    unfold Record_add_phone. destruct (Phone_init phone) as [f|e]; cbn;
      [|split; [assumption | apply grows_refl]].
    split; [now apply book_inv_set | apply grows_set].
  - cbn [Record_init name Name_init value].
    assert (Hinv1 : book_inv (dict_set n (Record_init n) contacts)).
    { apply book_inv_set; [assumption | reflexivity | discriminate]. }
    destruct (nonempty phone); [|split; [assumption | apply grows_set]].
    unfold Record_add_phone. destruct (Phone_init phone) as [f|e]; cbn;
      [|split; [assumption | apply grows_set]].
    split.
    + apply book_inv_set; [assumption | reflexivity | discriminate].
    + eapply grows_trans; apply grows_set.
Qed.

Lemma change_contact_inv args contacts :
  book_inv contacts ->
  book_inv (snd (change_contact args contacts)) /\
  grows contacts (snd (change_contact args contacts)).
Proof.
  intros Hinv. unfold change_contact.
  destruct args as [|n [|old [|new [|x args]]]];
    try (split; [assumption | apply grows_refl]).
  unfold AddressBook_find.
  destruct (dict_get n contacts) as [r|] eqn:Hget;
    [|split; [assumption | apply grows_refl]].
  destruct (book_inv_get _ _ _ Hinv Hget) as [Hn Hb]. cbn [snd].
  split; [now apply book_inv_set | apply grows_set].
Qed.

Lemma add_birthday_inv args contacts :
  book_inv contacts ->
  book_inv (snd (add_birthday args contacts)) /\
  grows contacts (snd (add_birthday args contacts)).
Proof.
  intros Hinv. unfold add_birthday.
  destruct args as [|n [|date rest]];
    try (split; [assumption | apply grows_refl]).
  unfold AddressBook_find.
  destruct (dict_get n contacts) as [r|] eqn:Hget;
    [|split; [assumption | apply grows_refl]].
  destruct (book_inv_get _ _ _ Hinv Hget) as [Hn Hb].
  unfold Record_add_birthday.
  destruct (Birthday_init date) as [b|e] eqn:Hdate; cbn;
    [|split; [assumption | apply grows_refl]].
  split; [|apply grows_set].
  apply book_inv_set; [assumption | assumption|].
  cbn. intros b0 [= <-]. eapply Birthday_init_birthday_ok, Hdate.
Qed.

Lemma main_turn_inv today line contacts p contacts' :
  main_turn today line contacts = Continue p contacts' ->
  book_inv contacts ->
  book_inv contacts' /\ grows contacts contacts'.
Proof.
  unfold main_turn, after_handler.
  destruct (parse_input line) as [cmd args|]; [|discriminate].
  intros Hturn Hinv.
  repeat match type of Hturn with
         | (if ?b then _ else _) = _ => destruct b
         end;
    try discriminate; injection Hturn as _ <-;
    try (split; [assumption | apply grows_refl]).
  - now apply add_contact_inv.
  - now apply change_contact_inv.
  - now apply add_birthday_inv.
Qed.

Lemma main_loop_inv inputs contacts out :
  book_inv contacts ->
  book_inv (book_of (main_loop inputs contacts out)) /\
  grows contacts (book_of (main_loop inputs contacts out)).
Proof.
  revert contacts out.
  induction inputs as [|[today line] inputs IH]; intros contacts out Hinv.
  - split; [assumption | apply grows_refl].
  - cbn [main_loop].
    destruct (main_turn today line contacts) as [p c'|saved|e] eqn:Hturn;
      try (split; [assumption | apply grows_refl]).
    destruct (main_turn_inv _ _ _ _ _ Hturn Hinv) as [Hinv' Hg].
    destruct (IH c' (out ++ [p])%list Hinv') as [H1 H2].
    split; [assumption | eapply grows_trans; eassumption].
Qed.

(** X17: what the commands keep.  If in the book that was loaded the names
    are pairwise different, every record stands under its own name and
    every birthday is midnight of a real date, then the same holds of the
    book after any lines; and the names that were there are still there,
    in their order, before the names that were added: no command removes or
    renames a contact. *)
Theorem main_keeps_invariants (loaded : AddressBook)
  (inputs : list (datetime * string)) :
  book_inv loaded ->
  book_inv (book_of (main loaded inputs)) /\
  grows loaded (book_of (main loaded inputs)).
Proof. apply main_loop_inv. Qed.

Lemma main_keeps_invariants_witness :
  let t := mkDatetime 2024 1 1 9 0 0 0 in
  book_inv (book_of (main [] [(t, "add Oleh 0501234567");
                              (t, "add-birthday Oleh 01.02.1990");
                              (t, "add Ira 1")])).
Proof.
  intros t.
  apply (main_keeps_invariants []).
  repeat split; constructor.
Defined.

(* ------------------------------------------------------------------ *)
(** ** The calendar *)

Lemma all_from_spec f lo len :
  all_from f lo len = true ->
  forall n, lo <= n < lo + Z.pos len -> f n = true.
Proof.
  revert lo. induction len as [p IH|p IH|]; intros lo H n Hn; cbn in H.
  - apply andb_true_iff in H as [H H2]. apply andb_true_iff in H as [H0 H1].
    destruct (Z.eq_dec n lo) as [->|Hne]; [assumption|].
    destruct (Z_lt_le_dec n (lo + 1 + Z.pos p)).
    + apply (IH _ H1). lia.
    + apply (IH _ H2). lia.
  - apply andb_true_iff in H as [H1 H2].
    destruct (Z_lt_le_dec n (lo + Z.pos p)).
    + apply (IH _ H1). lia.
    + apply (IH _ H2). lia.
  - assert (n = lo) as -> by lia. assumption.
Qed.

(** The days of a year, one by one. *)
Lemma month_day_common : all_from (month_day_ok false) 0 365 = true.
Proof. vm_compute. reflexivity. Qed.

Lemma month_day_leap : all_from (month_day_ok true) 0 366 = true.
Proof. vm_compute. reflexivity. Qed.

Lemma month_day_spec (leapyear : bool) n :
  0 <= n < 365 + (if leapyear then 1 else 0) ->
  month_day_ok leapyear n = true.
Proof.
  intros H. destruct leapyear.
  - apply (all_from_spec _ _ _ month_day_leap). lia.
  - apply (all_from_spec _ _ _ month_day_common). lia.
Qed.

Lemma ord2ymd_unfold n0 :
  _ord2ymd n0 =
  let n := n0 - 1 in
  let n400 := n / 146097 in
  let n := n mod 146097 in
  let n100 := n / 36524 in
  let n := n mod 36524 in
  let n4 := n / 1461 in
  let n := n mod 1461 in
  let n1 := n / 365 in
  let n := n mod 365 in
  let year := n400 * 400 + 1 + n100 * 100 + n4 * 4 + n1 in
  if (n1 =? 4) || (n100 =? 4) then (year - 1, 12, 31)
  else
    let '(m, d) :=
      month_day ((n1 =? 3) && (negb (n4 =? 24) || (n100 =? 3))) n in
    (year, m, d).
Proof.
  unfold _ord2ymd, month_day, _DI400Y, _DI100Y, _DI4Y. cbv zeta.
  repeat match goal with
         | |- context [if ?b then _ else _] => destruct b
         end; reflexivity.
Qed.

Lemma days_before_year_mono y1 y2 :
  y1 <= y2 -> _days_before_year y1 <= _days_before_year y2.
Proof.
  intros H. unfold _days_before_year. cbv zeta.
  Z.div_mod_to_equations. lia.
Qed.

Lemma days_before_year_succ y :
  _days_before_year (y + 1) =
  _days_before_year y + 365 + (if _is_leap y then 1 else 0).
Proof.
  unfold _days_before_year, _is_leap. cbv zeta.
  destruct (Z.eqb_spec (y mod 4) 0), (Z.eqb_spec (y mod 100) 0),
    (Z.eqb_spec (y mod 400) 0); cbn [negb andb orb];
    Z.div_mod_to_equations; lia.
Qed.

(** The year that starts after [n400] periods of 400 years, [n100] of 100,
    [n4] of 4 and [n1] single years. *)
Lemma days_before_year_parts n400 n100 n4 n1 :
  0 <= n400 -> 0 <= n100 <= 3 -> 0 <= n4 <= 24 -> 0 <= n1 <= 3 ->
  _days_before_year (n400 * 400 + 1 + n100 * 100 + n4 * 4 + n1) =
  146097 * n400 + 36524 * n100 + 1461 * n4 + 365 * n1.
Proof.
  intros H400 H100 H4 H1. unfold _days_before_year. cbv zeta.
  Z.div_mod_to_equations. lia.
Qed.

Lemma is_leap_parts n400 n100 n4 n1 :
  0 <= n400 -> 0 <= n100 <= 3 -> 0 <= n4 <= 24 -> 0 <= n1 <= 3 ->
  _is_leap (n400 * 400 + 1 + n100 * 100 + n4 * 4 + n1) =
  (n1 =? 3) && (negb (n4 =? 24) || (n100 =? 3)).
Proof.
  intros H400 H100 H4 H1. unfold _is_leap.
  set (y := n400 * 400 + 1 + n100 * 100 + n4 * 4 + n1).
  destruct (Z.eqb_spec (y mod 4) 0), (Z.eqb_spec (y mod 100) 0),
    (Z.eqb_spec (y mod 400) 0), (Z.eqb_spec n1 3), (Z.eqb_spec n4 24),
    (Z.eqb_spec n100 3); cbn [negb andb orb]; try reflexivity;
    exfalso; subst y; Z.div_mod_to_equations; lia.
Qed.

Ltac table_lookup :=
  repeat match goal with
         | |- context [index ?l ?k] =>
             let v := eval vm_compute in (index l k) in
             change (index l k) with v
         | H : context [index ?l ?k] |- _ =>
             let v := eval vm_compute in (index l k) in
             change (index l k) with v in H
         end.

Lemma real_date_fields y m d :
  real_date y m d = true ->
  1 <= y <= 9999 /\ 1 <= m <= 12 /\ 1 <= d <= _days_in_month y m.
Proof.
  unfold real_date. intros H.
  repeat (apply andb_true_iff in H as [H ?]). lia.
Qed.

Lemma real_date_intro y m d :
  1 <= y <= 9999 -> 1 <= m <= 12 -> 1 <= d <= _days_in_month y m ->
  real_date y m d = true.
Proof.
  intros Hy Hm Hd. unfold real_date.
  repeat (apply andb_true_iff; split); lia.
Qed.

Lemma year_of_ordinal y k :
  _days_before_year y <= k -> k < _days_before_year 10000 -> y <= 9999.
Proof.
  intros H1 H2. destruct (Z_le_gt_dec y 9999) as [|Hbig]; [assumption|].
  pose proof (days_before_year_mono 10000 y ltac:(lia)). lia.
Qed.

Lemma ord2ymd_correct n :
  1 <= n <= _MAXORDINAL ->
  let '(y, m, d) := _ord2ymd n in
  real_date y m d = true /\ _ymd2ord y m d = n.
Proof.
  unfold _MAXORDINAL. intros Hn. rewrite ord2ymd_unfold. cbv zeta.
  assert (Hmax : n - 1 < _days_before_year 10000)
    by (change (_days_before_year 10000) with 3652059; lia).
  pose proof (Z.div_mod (n - 1) 146097 ltac:(lia)) as E400.
  pose proof (Z.mod_pos_bound (n - 1) 146097 ltac:(lia)) as B400.
  set (n400 := (n - 1) / 146097) in *.
  set (r1 := (n - 1) mod 146097) in *.
  pose proof (Z.div_mod r1 36524 ltac:(lia)) as E100.
  pose proof (Z.mod_pos_bound r1 36524 ltac:(lia)) as B100.
  set (n100 := r1 / 36524) in *. set (r2 := r1 mod 36524) in *.
  pose proof (Z.div_mod r2 1461 ltac:(lia)) as E4.
  pose proof (Z.mod_pos_bound r2 1461 ltac:(lia)) as B4.
  set (n4 := r2 / 1461) in *. set (r3 := r2 mod 1461) in *.
  pose proof (Z.div_mod r3 365 ltac:(lia)) as E1.
  pose proof (Z.mod_pos_bound r3 365 ltac:(lia)) as B1.
  set (n1 := r3 / 365) in *. set (r4 := r3 mod 365) in *.
  clearbody n400 r1 n100 r2 n4 r3 n1 r4.
  assert (H400 : 0 <= n400) by lia.
  assert (H100 : 0 <= n100 <= 4) by lia.
  assert (H4 : 0 <= n4 <= 24) by lia.
  assert (H1 : 0 <= n1 <= 4) by lia.
  destruct (Z.eqb_spec n1 4) as [En1|En1];
    [|destruct (Z.eqb_spec n100 4) as [En100|En100]]; cbn [orb].
  - (* the last day of a leap year, at the end of a period of 4 years *)
    assert (H4' : 0 <= n4 <= 23) by lia.
    assert (H100' : 0 <= n100 <= 3) by lia.
    replace (n400 * 400 + 1 + n100 * 100 + n4 * 4 + n1 - 1)
      with (n400 * 400 + 1 + n100 * 100 + n4 * 4 + 3) by lia.
    pose proof (days_before_year_parts n400 n100 n4 3 H400 H100'
                  ltac:(lia) ltac:(lia)) as Hdby.
    pose proof (is_leap_parts n400 n100 n4 3 H400 H100'
                  ltac:(lia) ltac:(lia)) as Hleap.
    destruct (Z.eqb_spec n4 24); [lia|].
    change (3 =? 3) with true in Hleap. cbn [negb andb orb] in Hleap.
    set (y := n400 * 400 + 1 + n100 * 100 + n4 * 4 + 3) in *.
    assert (Hy : y <= 9999) by (apply (year_of_ordinal y (n - 1)); lia).
    split.
    + apply real_date_intro; [subst y; lia | lia|].
      unfold _days_in_month. table_lookup.
      change (12 =? 2) with false. cbn [andb]. lia.
    + unfold _ymd2ord, _days_before_month. rewrite Hdby, Hleap.
      table_lookup. change (2 <? 12) with true. cbn [andb]. lia.
  - (* the last day of a period of 400 years *)
    assert (n4 = 0 /\ n1 = 0) as [-> ->] by lia. subst n100.
    replace (n400 * 400 + 1 + 4 * 100 + 0 * 4 + 0 - 1)
      with (n400 * 400 + 1 + 3 * 100 + 24 * 4 + 3) by lia.
    pose proof (days_before_year_parts n400 3 24 3 H400
                  ltac:(lia) ltac:(lia) ltac:(lia)) as Hdby.
    pose proof (is_leap_parts n400 3 24 3 H400
                  ltac:(lia) ltac:(lia) ltac:(lia)) as Hleap.
    change ((3 =? 3) && (negb (24 =? 24) || (3 =? 3))) with true in Hleap.
    set (y := n400 * 400 + 1 + 3 * 100 + 24 * 4 + 3) in *.
    assert (Hy : y <= 9999) by (apply (year_of_ordinal y (n - 1)); lia).
    split.
    + apply real_date_intro; [subst y; lia | lia|].
      unfold _days_in_month. table_lookup.
      change (12 =? 2) with false. cbn [andb]. lia.
    + unfold _ymd2ord, _days_before_month. rewrite Hdby, Hleap.
      table_lookup. change (2 <? 12) with true. cbn [andb]. lia.
  - (* any other day *)
    assert (H100' : 0 <= n100 <= 3) by lia.
    assert (H1' : 0 <= n1 <= 3) by lia.
    pose proof (days_before_year_parts n400 n100 n4 n1 H400 H100' H4 H1')
      as Hdby.
    pose proof (is_leap_parts n400 n100 n4 n1 H400 H100' H4 H1') as Hleap.
    set (y := n400 * 400 + 1 + n100 * 100 + n4 * 4 + n1) in *.
    rewrite <- Hleap.
    assert (Hy : y <= 9999) by (apply (year_of_ordinal y (n - 1)); lia).
    pose proof (month_day_spec (_is_leap y) r4) as Hmd.
    unfold month_day_ok in Hmd.
    destruct (month_day (_is_leap y) r4) as [m d].
    assert (Hr4 : 0 <= r4 < 365 + (if _is_leap y then 1 else 0))
      by (destruct (_is_leap y); lia).
    specialize (Hmd Hr4).
    repeat (apply andb_true_iff in Hmd as [Hmd ?]).
    split.
    + apply real_date_intro; [subst y; lia | lia|].
      unfold _days_in_month. lia.
    + unfold _ymd2ord, _days_before_month. lia.
Qed.

Ltac months m :=
  let H := fresh in
  assert (H : In m (Zrange 1 12)) by (apply Zrange_In; lia);
  cbv in H;
  repeat (destruct H as [H|H]; [subst m|]); [..|contradiction].

Lemma day_of_year_bounds y m d :
  real_date y m d = true ->
  1 <= _days_before_month y m + d <= 365 + (if _is_leap y then 1 else 0).
Proof.
  intros H. apply real_date_fields in H as (_ & Hm & Hd).
  unfold _days_before_month, _days_in_month in *.
  destruct (_is_leap y); months m; table_lookup;
    cbn -[Z.add Z.sub Z.le Z.lt] in *; lia.
Qed.

Lemma days_before_month_mono y m1 m2 d1 :
  1 <= m1 -> m1 < m2 <= 12 -> d1 <= _days_in_month y m1 ->
  _days_before_month y m1 + d1 <= _days_before_month y m2.
Proof.
  intros H1 H2 Hd. unfold _days_before_month, _days_in_month in *.
  destruct (_is_leap y); months m1; months m2; table_lookup;
    cbn -[Z.add Z.sub Z.le Z.lt] in *; lia.
Qed.

(** The ordinal grows with the date. *)
Lemma ymd2ord_lt y1 m1 d1 y2 m2 d2 :
  real_date y1 m1 d1 = true -> real_date y2 m2 d2 = true ->
  y1 < y2 \/ (y1 = y2 /\ (m1 < m2 \/ (m1 = m2 /\ d1 < d2))) ->
  _ymd2ord y1 m1 d1 < _ymd2ord y2 m2 d2.
Proof.
  intros H1 H2 Hlt. unfold _ymd2ord.
  pose proof (day_of_year_bounds _ _ _ H1) as B1.
  pose proof (day_of_year_bounds _ _ _ H2) as B2.
  apply real_date_fields in H1 as (Hy1 & Hm1 & Hd1).
  apply real_date_fields in H2 as (Hy2 & Hm2 & Hd2).
  destruct Hlt as [Hy|[-> [Hm|[-> Hd]]]].
  - pose proof (days_before_year_succ y1) as Hs.
    pose proof (days_before_year_mono (y1 + 1) y2 ltac:(lia)). lia.
  - pose proof (days_before_month_mono y2 m1 m2 d1 ltac:(lia) ltac:(lia)
                  ltac:(lia)). lia.
  - lia.
Qed.

(* ------------------------------------------------------------------ *)
(** ** Datetimes on the time line *)

Lemma datetime_le_timestamp a b :
  valid_datetime a -> valid_datetime b ->
  datetime_le a b = true -> timestamp a <= timestamp b.
Proof.
  intros [Ha Hta] [Hb Htb]. unfold valid_time in *.
  unfold datetime_le, datetime_cmp, fields, timestamp, toordinal, secs_of_day.
  cbn [tuple_cmp].
  destruct (Z.compare_spec (year a) (year b)) as [Hy|Hy|Hy];
    [|intros _|discriminate].
  2:{ pose proof (ymd2ord_lt _ _ _ _ _ _ Ha Hb (or_introl Hy)). lia. }
  destruct (Z.compare_spec (month a) (month b)) as [Hm|Hm|Hm];
    [|intros _|discriminate].
  2:{ pose proof (ymd2ord_lt _ _ _ _ _ _ Ha Hb
                    (or_intror (conj Hy (or_introl Hm)))). lia. }
  destruct (Z.compare_spec (day a) (day b)) as [Hd|Hd|Hd];
    [|intros _|discriminate].
  2:{ pose proof (ymd2ord_lt _ _ _ _ _ _ Ha Hb
                    (or_intror (conj Hy (or_intror (conj Hm Hd))))). lia. }
  rewrite Hy, Hm, Hd.
  destruct (Z.compare_spec (hour a) (hour b)); [|intros _; lia|discriminate].
  destruct (Z.compare_spec (minute a) (minute b));
    [|intros _; lia|discriminate].
  destruct (Z.compare_spec (second a) (second b));
    [|intros _; lia|discriminate].
  destruct (Z.compare_spec (microsecond a) (microsecond b));
    [intros _; lia|intros _; lia|discriminate].
Qed.

Lemma timedelta_new_small d s us :
  0 <= s < 86400 -> 0 <= us < 1000000 ->
  timedelta_new d s us = mkTimedelta d s us.
Proof.
  intros Hs Hus. unfold timedelta_new. cbv zeta. f_equal.
  - Z.div_mod_to_equations. lia.
  - Z.div_mod_to_equations. lia.
  - Z.div_mod_to_equations. lia.
Qed.

Lemma datetime_add_week today nw :
  valid_datetime today ->
  datetime_add today (timedelta_new 7 0 0) = Ok nw ->
  valid_datetime nw /\ timestamp nw = timestamp today + 7 * 86400000000.
Proof.
  intros [Hd Ht]. unfold valid_time in Ht.
  unfold datetime_add.
  rewrite (timedelta_new_small 7 0 0) by lia. cbn [days seconds microseconds].
  rewrite timedelta_new_small by (unfold secs_of_day; lia).
  cbn [days seconds microseconds].
  destruct ((0 <? toordinal today + 7) && (toordinal today + 7 <=? _MAXORDINAL))
    eqn:Hrange; [|discriminate].
  apply andb_true_iff in Hrange as [H0 Hmax].
  pose proof (ord2ymd_correct (toordinal today + 7)) as Hord.
  destruct (_ord2ymd (toordinal today + 7)) as [[y m] d].
  destruct Hord as [Hreal Hback]; [lia|].
  intros [= <-]. unfold valid_datetime, valid_time, timestamp, toordinal.
  cbn [year month day hour minute second microsecond secs_of_day].
  rewrite Hback. unfold toordinal, secs_of_day in *.
  cbn [year month day hour minute second microsecond].
  repeat split; try assumption; try lia;
    Z.div_mod_to_equations; lia.
Qed.

Lemma datetime_sub_days a b :
  valid_time a -> valid_time b ->
  days (datetime_sub a b) = (timestamp a - timestamp b) / 86400000000.
Proof.
  unfold valid_time, datetime_sub, timedelta_new, timestamp, secs_of_day.
  cbv zeta. cbn [days]. intros Ha Hb.
  Z.div_mod_to_equations. lia.
Qed.

(* ------------------------------------------------------------------ *)
(** ** More on the [birthdays] command *)

Lemma replace_year_raises dt y e :
  replace_year dt y = Raise e -> e = ValueError.
Proof.
  unfold replace_year. rewrite check_date_fields_real.
  destruct (real_date _ _ _); cbn; [discriminate | now intros [= <-]].
Qed.

Lemma replace_year_cases dt y :
  replace_year dt y =
  if real_date y (month dt) (day dt)
  then Ok (mkDatetime y (month dt) (day dt)
             (hour dt) (minute dt) (second dt) (microsecond dt))
  else Raise ValueError.
Proof.
  unfold replace_year. rewrite check_date_fields_real.
  now destruct (real_date _ _ _).
Qed.

(** A real date has a place in the year [y], but for the 29th of February
    when [y] is no leap year. *)
Lemma real_date_moved y0 m d y :
  real_date y0 m d = true -> 1 <= y <= 9999 ->
  real_date y m d = negb ((m =? 2) && (d =? 29) && negb (_is_leap y)).
Proof.
  intros H Hy. apply real_date_fields in H as (_ & Hm & Hd).
  assert (Hreal : real_date y m d = (d <=? _days_in_month y m)).
  { unfold real_date.
    destruct (Z.leb_spec 1 y), (Z.leb_spec y 9999), (Z.leb_spec 1 m),
      (Z.leb_spec m 12), (Z.leb_spec 1 d); try lia; reflexivity. }
  rewrite Hreal. unfold _days_in_month in *.
  destruct (Z.eqb_spec m 2) as [->|Hne]; cbn [andb negb].
  - table_lookup. change (2 =? 2) with true in *. cbn [andb] in *.
    destruct (_is_leap y0), (_is_leap y); cbv iota in *; cbn [negb andb];
      destruct (Z.eqb_spec d 29); cbn [negb andb];
      match goal with
      | |- (?a <=? ?b) = _ => destruct (Z.leb_spec a b)
      end; try reflexivity; lia.
  - cbn [andb] in Hd.
    destruct (Z.leb_spec d (index _DAYS_IN_MONTH m)); [reflexivity | lia].
Qed.

Lemma birthdays_loop_raises today nw rs acc e :
  birthdays_loop today nw rs acc = Raise e -> e = ValueError.
Proof.
  revert acc. induction rs as [|r rs IH]; intros acc; simpl; [discriminate|].
  destruct (birthday r) as [b|]; [|apply IH].
  destruct (replace_year (value b) (year today)) as [bty|e0] eqn:Hr; cbn.
  - destruct (_ && _); apply IH.
  - intros [= <-]. eapply replace_year_raises, Hr.
Qed.

Lemma birthdays_loop_stuck today nw rs acc :
  Exists (fun r => ~ movable (year today) r) rs ->
  birthdays_loop today nw rs acc = Raise ValueError.
Proof.
  intros H. revert acc. induction H as [r rs Hr|r rs _ IH]; intros acc.
  - simpl. destruct (birthday r) as [b|] eqn:Hb.
    + destruct (replace_year (value b) (year today)) as [bty|e] eqn:Hrep.
      * exfalso. apply Hr. intros b' Hb'. rewrite Hb in Hb'.
        injection Hb' as <-. now exists bty.
      * cbn. apply replace_year_raises in Hrep. now subst e.
    + exfalso. apply Hr. intros b' Hb'. congruence.
  - simpl. destruct (birthday r) as [b|]; [|apply IH].
    destruct (replace_year (value b) (year today)) as [bty|e] eqn:Hrep; cbn.
    + destruct (_ && _); apply IH.
    + apply replace_year_raises in Hrep. now subst e.
Qed.

Lemma movable_iff y r :
  1 <= y <= 9999 ->
  (forall b, birthday r = Some b -> birthday_ok b) ->
  (movable y r <-> leap_day_birthday r && negb (_is_leap y) = false).
Proof.
  intros Hy Hok. unfold movable, leap_day_birthday.
  destruct (birthday r) as [b|]; [|split; [reflexivity | discriminate]].
  destruct (Hok b eq_refl) as (y0 & m & d & Hreal & Hv).
  assert (Hcases := replace_year_cases (value b) y).
  rewrite Hv in *. cbn [month day] in *.
  rewrite (real_date_moved _ _ _ _ Hreal Hy) in Hcases.
  destruct ((m =? 2) && (d =? 29) && negb (_is_leap y)) eqn:E;
    cbn [negb] in Hcases; split.
  - intros H. destruct (H b eq_refl) as [bty Hb]. rewrite Hv in Hb.
    congruence.
  - discriminate.
  - reflexivity.
  - intros _ b' [= <-]. rewrite Hv. eexists. exact Hcases.
Qed.

Lemma Forall_movable y (book : AddressBook) :
  1 <= y <= 9999 -> birthdays_ok book ->
  _is_leap y = true \/ existsb leap_day_birthday (dict_values book) = false ->
  Forall (movable y) (dict_values book).
Proof.
  intros Hy Hok Hcase. unfold dict_values.
  induction Hok as [|[k r] book Hr _ IH]; [constructor|].
  cbn [map snd existsb] in *. constructor.
  - apply movable_iff; [assumption | exact Hr|].
    destruct Hcase as [->|H]; [apply andb_false_r|].
    apply orb_false_iff in H as [H _]. cbn [snd] in H. now rewrite H.
  - apply IH. destruct Hcase as [H|H]; [now left|].
    apply orb_false_iff in H as [_ H]. now right.
Qed.

Lemma Exists_not_movable y (book : AddressBook) :
  1 <= y <= 9999 -> birthdays_ok book ->
  _is_leap y = false -> existsb leap_day_birthday (dict_values book) = true ->
  Exists (fun r => ~ movable y r) (dict_values book).
Proof.
  intros Hy Hok Hleap. unfold dict_values.
  induction Hok as [|[k r] book Hr _ IH]; [discriminate|].
  cbn [map snd existsb]. intros H.
  destruct (leap_day_birthday r) eqn:E.
  - left. intros Hmov. apply movable_iff in Hmov; [|assumption|exact Hr].
    rewrite E, Hleap in Hmov. discriminate.
  - right. now apply IH.
Qed.

Lemma birthdays_when_movable args contacts today next_week :
  datetime_add today (timedelta_new 7 0 0) = Ok next_week ->
  Forall (movable (year today)) (dict_values contacts) ->
  birthdays args contacts today =
  listing (flat_map (upcoming_rows today next_week) (dict_values contacts)).
Proof.
  intros Hadd Hmov. unfold birthdays. rewrite Hadd. cbn [bind].
  now rewrite birthdays_loop_rows.
Qed.

(** X18: when this year is a leap year or no birthday of the book falls
    on the 29th of February, [birthdays] lists the records of the book in
    the order of the book, each at most once: a record is listed when its
    birthday in this year lies between now and a week from now, with the
    whole days until then; when no record is listed the answer says so. *)
Theorem birthdays_lists (args : list string) (contacts : AddressBook)
  (today next_week : datetime) :
  birthdays_ok contacts ->
  1 <= year today <= 9999 ->
  datetime_add today (timedelta_new 7 0 0) = Ok next_week ->
  _is_leap (year today) = true \/
  existsb leap_day_birthday (dict_values contacts) = false ->
  birthdays args contacts today =
  listing (flat_map (upcoming_rows today next_week) (dict_values contacts)).
Proof.
  intros Hok Hy Hadd Hcase.
  apply birthdays_when_movable; [assumption | now apply Forall_movable].
Qed.

Lemma birthdays_lists_witness :
  let b := mkField (mkDatetime 1984 2 29 0 0 0 0) in
  birthdays [] [("Bob", mkRecord (Name_init "Bob") [] (Some b))]
    (mkDatetime 2024 2 22 0 0 0 0) =
  Upcoming [mkRow "Bob" b 7].
Proof.
  intros b.
  apply (birthdays_lists [] [("Bob", mkRecord (Name_init "Bob") [] (Some b))]
           (mkDatetime 2024 2 22 0 0 0 0) (mkDatetime 2024 2 29 0 0 0 0)).
  - constructor; [|constructor]. cbn. intros b0 [= <-].
    exists 1984, 2, 29. split; reflexivity.
  - cbn. lia.
  - reflexivity.
  - left. reflexivity.
Defined.

(** X19: [birthdays] answers with the text for [ValueError], the one that
    asks for a name and a phone number, exactly when this year is no leap
    year and some record of the book has its birthday on the 29th of
    February; no line is shown then, also not for the other records. *)
Theorem birthdays_fails_iff (args : list string) (contacts : AddressBook)
  (today next_week : datetime) :
  birthdays_ok contacts ->
  1 <= year today <= 9999 ->
  datetime_add today (timedelta_new 7 0 0) = Ok next_week ->
  (birthdays args contacts today = GiveNameAndPhone <->
   _is_leap (year today) = false /\
   existsb leap_day_birthday (dict_values contacts) = true).
Proof.
  intros Hok Hy Hadd. split.
  - intros H.
    destruct (_is_leap (year today)) eqn:Hleap.
    + rewrite (birthdays_when_movable _ _ _ _ Hadd) in H
        by (apply Forall_movable; auto).
      destruct (flat_map _ _); discriminate.
    + destruct (existsb leap_day_birthday (dict_values contacts)) eqn:Hex;
        [now split|].
      rewrite (birthdays_when_movable _ _ _ _ Hadd) in H
        by (apply Forall_movable; auto).
      destruct (flat_map _ _); discriminate.
  - intros [Hleap Hex]. unfold birthdays. rewrite Hadd. cbn [bind].
    rewrite birthdays_loop_stuck; [reflexivity|].
    now apply Exists_not_movable.
Qed.

Lemma birthdays_fails_iff_witness :
  let ann := mkRecord (Name_init "Ann") []
               (Some (mkField (mkDatetime 1985 1 3 0 0 0 0))) in
  let bob := mkRecord (Name_init "Bob") []
               (Some (mkField (mkDatetime 1984 2 29 0 0 0 0))) in
  birthdays [] [("Ann", ann); ("Bob", bob)] (mkDatetime 2023 6 1 12 0 0 0) =
  GiveNameAndPhone.
Proof.
  intros ann bob.
  apply (birthdays_fails_iff [] [("Ann", ann); ("Bob", bob)]
           (mkDatetime 2023 6 1 12 0 0 0) (mkDatetime 2023 6 8 12 0 0 0)).
  - repeat constructor; cbn; intros b0 [= <-].
    + exists 1985, 1, 3. split; reflexivity.
    + exists 1984, 2, 29. split; reflexivity.
  - cbn. lia.
  - reflexivity.
  - split; reflexivity.
Defined.

Lemma birthdays_loop_Forall (P : row -> Prop) today nw rs acc rows :
  (forall r b bty,
     In r rs -> birthday r = Some b ->
     replace_year (value b) (year today) = Ok bty ->
     datetime_le today bty = true -> datetime_le bty nw = true ->
     P (mkRow (value (name r)) b (days (datetime_sub bty today)))) ->
  Forall P acc ->
  birthdays_loop today nw rs acc = Ok rows -> Forall P rows.
Proof.
  revert acc. induction rs as [|r rs IH]; intros acc Hrow Hacc; simpl.
  - now intros [= <-].
  - assert (Hrow' : forall r0 b bty,
              In r0 rs -> birthday r0 = Some b ->
              replace_year (value b) (year today) = Ok bty ->
              datetime_le today bty = true -> datetime_le bty nw = true ->
              P (mkRow (value (name r0)) b (days (datetime_sub bty today))))
      by (intros r0 b bty Hin; apply Hrow; now right).
    destruct (birthday r) as [b|] eqn:Hb; [|now apply IH].
    destruct (replace_year (value b) (year today)) as [bty|e] eqn:Hrep;
      cbn [bind]; [|discriminate].
    destruct (datetime_le today bty) eqn:H1; cbn [andb]; [|now apply IH].
    destruct (datetime_le bty nw) eqn:H2; [|now apply IH].
    apply IH; [assumption|]. apply Forall_app. split; [assumption|].
    constructor; [|constructor]. apply (Hrow r b bty); auto. now left.
Qed.

Lemma replace_year_midnight b y bty :
  birthday_ok b -> replace_year (value b) y = Ok bty ->
  valid_datetime bty /\
  bty = mkDatetime y (month (value b)) (day (value b)) 0 0 0 0.
Proof.
  intros (y0 & m & d & _ & Hv). rewrite replace_year_cases, Hv.
  cbn [month day hour minute second microsecond].
  destruct (real_date y m d) eqn:Hreal; [|discriminate].
  intros [= <-]. split; [|reflexivity].
  split; [assumption|]. unfold valid_time. cbn. lia.
Qed.

(** X20: every line of the answer of [birthdays] is about a record of the
    book, under its name and with its birthday, and the days it gives are
    between 0 and 7: they are the days from today's date to the birthday
    in this year, less one when it is past midnight, so that a birthday of
    today is listed at midnight only. *)
Theorem birthdays_days_left (args : list string) (contacts : AddressBook)
  (today : datetime) (rows : list row) :
  valid_datetime today ->
  birthdays_ok contacts ->
  birthdays args contacts today = Upcoming rows ->
  rows <> [] /\ Forall (line_ok today contacts) rows.
Proof.
  intros Htoday Hok. unfold birthdays.
  destruct (datetime_add today (timedelta_new 7 0 0)) as [nw|e] eqn:Hadd;
    cbn [bind]; [|destruct e; discriminate].
  destruct (birthdays_loop today nw (dict_values contacts) [])
    as [rows'|e] eqn:Hloop; cbn [bind]; [|destruct e; discriminate].
  destruct rows' as [|l rows']; [discriminate|].
  cbn [input_error]. intros [= <-]. split; [discriminate|].
  destruct (datetime_add_week _ _ Htoday Hadd) as [Hnw Hts].
  refine (birthdays_loop_Forall _ _ _ _ _ _ _ (Forall_nil _) Hloop).
  intros r b bty Hin Hb Hrep Hle1 Hle2.
  assert (Hbok : birthday_ok b).
  { unfold dict_values in Hin. apply in_map_iff in Hin as [[k r0] [<- Hin]].
    unfold birthdays_ok in Hok. rewrite Forall_forall in Hok.
    apply (Hok _ Hin). exact Hb. }
  destruct (replace_year_midnight _ _ _ Hbok Hrep) as [Hbty Heq].
  pose proof (datetime_le_timestamp _ _ Htoday Hbty Hle1) as Hlo.
  pose proof (datetime_le_timestamp _ _ Hbty Hnw Hle2) as Hhi.
  rewrite Hts in Hhi.
  assert (Hdays := datetime_sub_days bty today (proj2 Hbty) (proj2 Htoday)).
  unfold line_ok. cbn [row_name row_birthday row_days_left].
  split; [now exists r|]. rewrite Hdays.
  destruct Htoday as [_ Ht]. unfold valid_time in Ht.
  unfold whole_days_until, timestamp in *. rewrite Heq in *.
  unfold toordinal, secs_of_day in *.
  cbn [year month day hour minute second microsecond] in *.
  split.
  - Z.div_mod_to_equations. lia.
  - destruct (Z.eqb_spec (second today + minute today * 60
                          + hour today * 3600) 0),
      (Z.eqb_spec (microsecond today) 0); cbn [andb];
      Z.div_mod_to_equations; lia.
Qed.

Lemma birthdays_days_left_witness :
  let b := mkField (mkDatetime 1985 1 3 0 0 0 0) in
  let book := [("Ann", mkRecord (Name_init "Ann") [] (Some b))] in
  let today := mkDatetime 2024 1 1 12 0 0 0 in
  Forall (line_ok today book) [mkRow "Ann" b 1].
Proof.
  intros b book today.
  apply (birthdays_days_left [] book today [mkRow "Ann" b 1]).
  - split; [reflexivity|]. unfold valid_time. cbn. lia.
  - constructor; [|constructor]. cbn. intros b0 [= <-].
    exists 1985, 1, 3. split; reflexivity.
  - reflexivity.
Defined.

(* ------------------------------------------------------------------ *)
(** ** More on the commands that show data *)

(** X21: [phone] and [show-birthday] take exactly one argument, with any
    other number the answer is the text for [ValueError]; [phone] for a
    name the book does not have names it; [show-birthday] gives one and
    the same answer for a name the book does not have and for a contact
    without a birthday, and shows the birthday in every other case. *)
Theorem show_commands_missing (contacts : AddressBook) :
  (forall args, length args <> 1%nat ->
     show_phone args contacts = Said GiveNameAndPhone /\
     show_birthday args contacts = Said GiveNameAndPhone) /\
  (forall n,
     show_phone [n] contacts = Said (NameNotFound n) <->
     AddressBook_find n contacts = None) /\
  (forall n,
     show_birthday [n] contacts = NoBirthdayFor n <->
     forall r, AddressBook_find n contacts = Some r -> birthday r = None) /\
  (forall n r b,
     AddressBook_find n contacts = Some r -> birthday r = Some b ->
     show_birthday [n] contacts = BirthdayOf n b).
Proof.
  split; [|split; [|split]].
  - intros [|n [|x args]] H; simpl in H; try congruence; split; reflexivity.
  - intros n. unfold show_phone.
    destruct (AddressBook_find n contacts); split;
      try discriminate; reflexivity.
  - intros n. unfold show_birthday.
    destruct (AddressBook_find n contacts) as [r|]; split.
    + destruct (birthday r) eqn:Hb; [discriminate|]. now intros _ r0 [= <-].
    + intros H. now rewrite (H r eq_refl).
    + intros _ r0. discriminate.
    + reflexivity.
  - intros n r b Hfind Hb. unfold show_birthday. now rewrite Hfind, Hb.
Qed.

Lemma show_commands_missing_witness :
  let book := [("Oleh", mkRecord (mkField "Oleh") [] None)] in
  show_phone [] book = Said GiveNameAndPhone /\
  show_birthday ["Oleh"] book = NoBirthdayFor "Oleh" /\
  show_birthday ["Ira"] book = NoBirthdayFor "Ira".
Proof.
  intros book.
  destruct (show_commands_missing book) as (H1 & _ & H3 & _).
  split; [apply H1; discriminate|]. split.
  - apply H3. cbn. intros r [= <-]. reflexivity.
  - apply H3. cbn. discriminate.
Defined.

(* ------------------------------------------------------------------ *)
(** ** The phones of a book *)

Lemma phones_ok_set n r book :
  phones_ok book ->
  Forall (fun p => phone_ok (value p) = true) (phones r) ->
  phones_ok (dict_set n r book).
Proof. intros Hb Hr. now apply dict_set_Forall. Qed.

Lemma phones_ok_get n r book :
  phones_ok book -> dict_get n book = Some r ->
  Forall (fun p => phone_ok (value p) = true) (phones r).
Proof.
  intros Hb Hget.
  apply (dict_get_Forall
           (fun kv => Forall (fun p => phone_ok (value p) = true)
                        (phones (snd kv))) _ _ _ Hb Hget).
Qed.

Lemma Phone_init_phone_ok p f : Phone_init p = Ok f -> phone_ok (value f) = true.
Proof.
  rewrite Phone_init_cases. unfold phone_ok.
  destruct (_ && _) eqn:E; [|discriminate]. now intros [= <-].
Qed.

Lemma add_contact_phones_ok args contacts :
  phones_ok contacts -> phones_ok (snd (add_contact args contacts)).
Proof.
  intros Hok. unfold add_contact.
  destruct args as [|n [|phone rest]]; try assumption.
  unfold AddressBook_find, AddressBook_add_record.
  destruct (dict_get n contacts) as [r|] eqn:Hget.
  - destruct (nonempty phone); [|assumption].
    unfold Record_add_phone.
    destruct (Phone_init phone) as [f|e] eqn:Hf; cbn; [|assumption].
    apply phones_ok_set; [assumption|]. cbn. apply Forall_app. split.
    + eapply phones_ok_get; eassumption.
    + constructor; [|constructor]. eapply Phone_init_phone_ok, Hf.
  - cbn [Record_init name Name_init value].
    assert (H1 : phones_ok (dict_set n (Record_init n) contacts))
      by (apply phones_ok_set; [assumption | constructor]).
    destruct (nonempty phone); [|assumption].
    unfold Record_add_phone.
    destruct (Phone_init phone) as [f|e] eqn:Hf; cbn; [|assumption].
    apply phones_ok_set; [assumption|]. cbn.
    constructor; [|constructor]. eapply Phone_init_phone_ok, Hf.
Qed.

Lemma add_birthday_phones_ok args contacts :
  phones_ok contacts -> phones_ok (snd (add_birthday args contacts)).
Proof.
  intros Hok. unfold add_birthday.
  destruct args as [|n [|date rest]]; try assumption.
  unfold AddressBook_find.
  destruct (dict_get n contacts) as [r|] eqn:Hget; [|assumption].
  unfold Record_add_birthday.
  destruct (Birthday_init date) as [b|e]; cbn; [|assumption].
  apply phones_ok_set; [assumption|]. cbn.
  eapply phones_ok_get; eassumption.
Qed.

Lemma main_turn_phones_ok today line contacts p contacts' :
  (forall args, parse_input line <> Command "change" args) ->
  main_turn today line contacts = Continue p contacts' ->
  phones_ok contacts -> phones_ok contacts'.
Proof.
  unfold main_turn, after_handler. intros Hno.
  destruct (parse_input line) as [cmd args|]; [|discriminate].
  intros Hturn Hok.
  destruct ((cmd =? "close")%string || (cmd =? "exit")%string);
    [discriminate|].
  destruct (cmd =? "hello")%string; [now injection Hturn as _ <-|].
  destruct (cmd =? "add")%string;
    [injection Hturn as _ <-; now apply add_contact_phones_ok|].
  destruct (String.eqb_spec cmd "change") as [->|_];
    [now contradiction (Hno args)|].
  destruct (cmd =? "phone")%string; [now injection Hturn as _ <-|].
  destruct (cmd =? "all")%string; [now injection Hturn as _ <-|].
  destruct (cmd =? "add-birthday")%string;
    [injection Hturn as _ <-; now apply add_birthday_phones_ok|].
  destruct (cmd =? "show-birthday")%string; [now injection Hturn as _ <-|].
  destruct (cmd =? "birthdays")%string; now injection Hturn as _ <-.
Qed.

Lemma main_loop_phones_ok inputs contacts out :
  without_change inputs -> phones_ok contacts ->
  phones_ok (book_of (main_loop inputs contacts out)).
Proof.
  intros Hno. revert contacts out.
  induction Hno as [|[today line] inputs Hline _ IH]; intros contacts out Hok;
    [assumption|].
  cbn [main_loop].
  destruct (main_turn today line contacts) as [p c'|saved|e] eqn:Hturn;
    try assumption.
  apply IH. eapply main_turn_phones_ok; eassumption.
Qed.

(** X22: as long as no line is a [change] command, every phone of the book
    is one that [Phone] takes (length 10, digits only), provided this held
    of the book that was loaded: [add] stores no other phone.  ([change]
    does, see C1.) *)
Theorem main_phones_ok_without_change (loaded : AddressBook)
  (inputs : list (datetime * string)) :
  phones_ok loaded -> without_change inputs ->
  phones_ok (book_of (main loaded inputs)).
Proof. intros Hok Hno. now apply main_loop_phones_ok. Qed.

Lemma main_phones_ok_without_change_witness :
  let t := mkDatetime 2024 1 1 9 0 0 0 in
  phones_ok (book_of (main [] [(t, "add Oleh 0501234567");
                               (t, "add Oleh 123");
                               (t, "add Ira 0507654321")])).
Proof.
  intros t. apply main_phones_ok_without_change.
  - constructor.
  - repeat constructor; cbn; discriminate.
Defined.
